(** * AlertBridge web client (src/web/static/js/alerts.js)

    A shallow embedding of the [AlertBridgeClient] class: the WebSocket
    handlers installed by [connectWebSocket], the dispatcher
    [handleMessage], the reconciliation method [addOrUpdateAlert], the
    connect button ([toggleConnection]), the settings methods
    ([saveSettings], [openSettings], [saveSettingsToStorage],
    [loadSettings]), the sound catalog ([playSound], [uploadSound],
    [deleteSound], [fileSelected]) and the requests to the server
    ([acknowledgeAlert], [getCSRFToken]).

    The client is untyped JavaScript: whatever [JSON.parse] returns is
    stored in the fields of [this] without validation.  The embedding keeps
    that: fields hold JavaScript values, property reads on [null] and
    [undefined] throw, conversions to a string or a number throw where
    JavaScript throws, and every method runs in a state-and-exception monad
    that also records the calls made to the browser.

    The file has five parts: the methods, the vocabulary in which the
    specification speaks about them (transitions, alert sets, runs), the
    lemmas, one theorem for each property of the specification, and
    further properties of the code. *)

From Stdlib Require Import ZArith Bool Lia Ascii.
From stdpp Require Import gmap strings list fin_maps pretty.

Set Warnings "-register-all".

Local Open Scope Z_scope.
Local Open Scope string_scope.
Local Open Scope list_scope.

(** ** JavaScript values *)

Module JS.

(** The values [JSON.parse] produces, and [undefined] (the value of an
    absent property).  Numbers are the integers that a double holds;
    [JSON.parse] yields no [NaN], so numbers compare by value.  An object lists its own properties
    in insertion order, each name once.  A string is the UTF-8 text of the
    JavaScript string. *)
Inductive jsval : Type :=
| JUndefined
| JNull
| JBool (b : bool)
| JNum (n : Z)
| JStr (s : string)
| JArr (xs : list jsval)
| JObj (fields : list (string * jsval)).

Inductive error : Type :=
| TypeError
| SyntaxError
| NetworkError
| IndexSizeError.

(** [x === y].  Primitives compare by value.  Arrays and objects compare
    by reference: the two sides the client compares always come from
    different parsed frames, so they are never the same object. *)
Definition strict_eq (x y : jsval) : bool :=
  match x, y with
  | JUndefined, JUndefined => true
  | JNull, JNull => true
  | JBool a, JBool b => Bool.eqb a b
  | JNum a, JNum b => Z.eqb a b
  | JStr a, JStr b => String.eqb a b
  | _, _ => false
  end.

(** [x === 'literal'] *)
Definition is_str (x : jsval) (lit : string) : bool := strict_eq x (JStr lit).

(** ToBoolean *)
Definition truthy (x : jsval) : bool :=
  match x with
  | JUndefined | JNull => false
  | JBool b => b
  | JNum n => negb (Z.eqb n 0)
  | JStr s => negb (String.eqb s "")
  | JArr _ | JObj _ => true
  end.

Definition nullish (x : jsval) : bool :=
  match x with
  | JUndefined | JNull => true
  | _ => false
  end.

Fixpoint assoc (k : string) (fields : list (string * jsval)) : jsval :=
  match fields with
  | [] => JUndefined
  | (k', v) :: rest => if String.eqb k k' then v else assoc k rest
  end.

(** [x.k] for the property names the client reads ([id], [status],
    [type], [data], [length], ...): [None] is the TypeError raised on
    [null] and [undefined].  The client only compares a length with 0; the
    length of a string is counted in bytes here. *)
Definition get (x : jsval) (k : string) : option jsval :=
  match x with
  | JUndefined | JNull => None
  | JObj fields => Some (assoc k fields)
  | JArr xs => Some (if String.eqb k "length" then JNum (Z.of_nat (length xs)) else JUndefined)
  | JStr s => Some (if String.eqb k "length" then JNum (Z.of_nat (String.length s)) else JUndefined)
  | JBool _ | JNum _ => Some JUndefined
  end.

(** [xs.findIndex(p)] and [xs.find(p)]: the callback runs on the elements
    in order until it returns true; an exception in the callback ends the
    search ([None]).  [findIndex] returns [Some None] for -1, [find] returns
    [undefined] when no element matches. *)
Fixpoint findIndex (p : jsval -> option bool) (xs : list jsval) : option (option nat) :=
  match xs with
  | [] => Some None
  | x :: rest =>
      match p x with
      | None => None
      | Some true => Some (Some 0%nat)
      | Some false =>
          match findIndex p rest with
          | None => None
          | Some None => Some None
          | Some (Some i) => Some (Some (S i))
          end
      end
  end.

Definition find (p : jsval -> option bool) (xs : list jsval) : option jsval :=
  match findIndex p xs with
  | None => None
  | Some None => Some JUndefined
  | Some (Some i) => Some (default JUndefined (xs !! i))
  end.

(** [xs.filter(p)] *)
Fixpoint filter (p : jsval -> option bool) (xs : list jsval) : option (list jsval) :=
  match xs with
  | [] => Some []
  | x :: rest =>
      match p x with
      | None => None
      | Some keep =>
          match filter p rest with
          | None => None
          | Some ys => Some (if keep then x :: ys else ys)
          end
      end
  end.

(** *** Conversion to a string *)

(** The double nearest to a positive integer (ties to even): the integer
    itself when a double holds it. *)
Definition nearest_double (m : Z) : Z :=
  let bits := Z.log2 m + 1 in
  if (bits <=? 53)%Z then m
  else
    let shift := bits - 53 in
    let q := Z.shiftr m shift in
    let r := Z.land m (Z.ones shift) in
    let half := Z.shiftl 1 (shift - 1) in
    Z.shiftl (if (half <? r)%Z || ((r =? half)%Z && Z.odd q) then q + 1 else q) shift.

(** the doubles end below [2^1024] *)
Definition overflow : Z := 2 ^ 1024.

(** The shortest decimal digits [s] that denote the double [x], with the
    number [n] of digits before the decimal point: the least [k] with a
    [k]-digit [s] such that [s * 10^(n-k)] is nearest to [x], and of two such
    [s] the one closer to [x]. *)
Fixpoint shortest (fuel k : nat) (x : Z) (n : nat) : Z * nat :=
  match fuel with
  | O => (x, n)
  | S fuel' =>
      let p := 10 ^ Z.of_nat (n - k) in
      let lo := x / p in
      let hi := lo + 1 in
      let ok_lo := (nearest_double (lo * p) =? x)%Z in
      let ok_hi := (nearest_double (hi * p) =? x)%Z in
      if ok_lo || ok_hi then
        let below := x - lo * p in
        let above := hi * p - x in
        let s := if ok_lo && ok_hi
                 then (if (below <? above)%Z || ((below =? above)%Z && Z.even lo) then lo else hi)
                 else if ok_lo then lo else hi in
        if (s =? 10 ^ Z.of_nat k)%Z then (1, S n) else (s, n)
      else shortest fuel' (S k) x n
  end.

Definition zeros (n : nat) : string := String.string_of_list_ascii (replicate n "0"%char).

(** Number::toString on a positive integer: the digits, padded with zeros
    below [10^21], in exponent form from there on. *)
Definition positive_toString (m : Z) : string :=
  let x := nearest_double m in
  if (overflow <=? x)%Z then "Infinity"
  else
    let '(s, n) := shortest (String.length (pretty x)) 1 x (String.length (pretty x)) in
    let digits := pretty s in
    let k := String.length digits in
    if (n <=? 21)%nat then digits +:+ zeros (n - k)
    else
      match digits with
      | String d "" => String d "" +:+ "e+" +:+ pretty (n - 1)%nat
      | String d more => String d "" +:+ "." +:+ more +:+ "e+" +:+ pretty (n - 1)%nat
      | "" => ""
      end.

Definition Number_toString (n : Z) : string :=
  if (n =? 0)%Z then "0"
  else if (n <? 0)%Z then "-" +:+ positive_toString (- n)
  else positive_toString n.

(** an object with an own property of that name *)
Definition has_own (k : string) (fields : list (string * jsval)) : bool :=
  existsb (λ kv, String.eqb k kv.1) fields.

(** String conversion ([`${x}`], ['...' + x], a DOM string argument).  An
    array joins its elements with commas, [null] and [undefined] elements as
    the empty string.  An object is [[object Object]], unless it has an own
    property [toString]: a value out of [JSON.parse] is not callable, and the
    conversion throws a TypeError ([None]). *)
Fixpoint ToString (v : jsval) : option string :=
  match v with
  | JUndefined => Some "undefined"
  | JNull => Some "null"
  | JBool b => Some (if b then "true" else "false")
  | JNum n => Some (Number_toString n)
  | JStr s => Some s
  | JArr xs =>
      (fix join (xs : list jsval) : option string :=
         match xs with
         | [] => Some ""
         | x :: rest =>
             match (match x with JUndefined | JNull => Some "" | _ => ToString x end) with
             | None => None
             | Some first =>
                 match rest with
                 | [] => Some first
                 | _ =>
                     match join rest with
                     | None => None
                     | Some others => Some (first +:+ "," +:+ others)
                     end
                 end
             end
         end) xs
  | JObj fields => if has_own "toString" fields then None else Some "[object Object]"
  end.

(** Conversion to a primitive ([new Date(x)], [x / 100]): an array or an
    object becomes its string. *)
Definition ToPrimitive (v : jsval) : option jsval :=
  match v with
  | JArr _ | JObj _ => JStr <$> ToString v
  | _ => Some v
  end.

(** *** Strings *)

(** [s.split(sep)] for a one-character separator *)
Fixpoint split (sep : ascii) (s : string) : list string :=
  match s with
  | EmptyString => [""]
  | String a rest =>
      if Ascii.eqb a sep then "" :: split sep rest
      else
        match split sep rest with
        | first :: others => String a first :: others
        | [] => [String a ""]
        end
  end.

(** White space and line terminators.  Those of ASCII: blank, tab, line
    feed, vertical tab, form feed, carriage return. *)
Definition whitespace (a : ascii) : bool :=
  let n := nat_of_ascii a in
  Nat.eqb n 32 || (Nat.leb 9 n && Nat.leb n 13).

(** The others, in UTF-8: U+00A0 in two bytes; U+1680, U+2000 to U+200A,
    U+2028, U+2029, U+202F, U+205F, U+3000 and U+FEFF in three. *)
Definition whitespace2 (a b : ascii) : bool :=
  Nat.eqb (nat_of_ascii a) 194 && Nat.eqb (nat_of_ascii b) 160.

Definition whitespace3 (a b c : ascii) : bool :=
  let x := nat_of_ascii a in
  let y := nat_of_ascii b in
  let z := nat_of_ascii c in
  (Nat.eqb x 225 && Nat.eqb y 154 && Nat.eqb z 128) ||
  (Nat.eqb x 226 && Nat.eqb y 128 &&
     ((Nat.leb 128 z && Nat.leb z 138) || Nat.eqb z 168 || Nat.eqb z 169 || Nat.eqb z 175)) ||
  (Nat.eqb x 226 && Nat.eqb y 129 && Nat.eqb z 159) ||
  (Nat.eqb x 227 && Nat.eqb y 128 && Nat.eqb z 128) ||
  (Nat.eqb x 239 && Nat.eqb y 187 && Nat.eqb z 191).

Fixpoint trimStart (s : string) : string :=
  match s with
  | String a r1 =>
      if whitespace a then trimStart r1
      else
        match r1 with
        | String b r2 =>
            if whitespace2 a b then trimStart r2
            else
              match r2 with
              | String c r3 => if whitespace3 a b c then trimStart r3 else s
              | EmptyString => s
              end
        | EmptyString => s
        end
  | EmptyString => ""
  end.

(** a string of white space only *)
Definition blank (s : string) : bool := String.eqb (trimStart s) "".

Fixpoint trimEnd (s : string) : string :=
  match s with
  | EmptyString => ""
  | String a rest => if blank s then "" else String a (trimEnd rest)
  end.

(** [s.trim()] *)
Definition trim (s : string) : string := trimEnd (trimStart s).

(** *** Conversion to a number *)

(** What a conversion to a number gives: [Decimal m e] is the double
    nearest to [m * 10^e]. *)
Inductive number : Type :=
| NaN
| Infinity (negative : bool)
| Decimal (m e : Z).

Definition digit_value (base : Z) (a : ascii) : option Z :=
  let n := Z.of_nat (nat_of_ascii a) in
  let v := if (48 <=? n)%Z && (n <=? 57)%Z then Some (n - 48)
           else if (97 <=? n)%Z && (n <=? 102)%Z then Some (n - 87)
           else if (65 <=? n)%Z && (n <=? 70)%Z then Some (n - 55)
           else None in
  match v with
  | Some d => if (d <? base)%Z then Some d else None
  | None => None
  end.

(** the digits a string starts with: their value on top of [acc], their
    number on top of [count], and the rest of the string *)
Fixpoint digits (base : Z) (s : string) (acc : Z) (count : nat) : Z * nat * string :=
  match s with
  | String a rest =>
      match digit_value base a with
      | Some d => digits base rest (acc * base + d) (S count)
      | None => (acc, count, s)
      end
  | EmptyString => (acc, count, s)
  end.

(** a string of digits in a base, and nothing else *)
Definition integer_literal (base : Z) (s : string) : option number :=
  let '(v, count, rest) := digits base s 0 0 in
  if Nat.eqb count 0 then None
  else if String.eqb rest "" then Some (Decimal v 0) else None.

(** the exponent part a decimal literal ends with, if any *)
Definition exponent_part (s : string) : option Z :=
  match s with
  | EmptyString => Some 0
  | String a rest =>
      if Ascii.eqb a "e" || Ascii.eqb a "E" then
        let '(sign, rest) :=
          match rest with
          | String "+" r => (1, r)
          | String "-" r => (-1, r)
          | _ => (1, rest)
          end in
        let '(v, count, tail) := digits 10 rest 0 0 in
        if Nat.eqb count 0 then None
        else if String.eqb tail "" then Some (sign * v) else None
      else None
  end.

Definition unsigned_decimal (s : string) : option number :=
  if String.eqb s "Infinity" then Some (Infinity false)
  else
    let '(i, ni, rest) := digits 10 s 0 0 in
    match rest with
    | String "." rest =>
        let '(f, nf, tail) := digits 10 rest i 0 in
        if Nat.eqb (ni + nf) 0 then None
        else
          match exponent_part tail with
          | Some e => Some (Decimal f (e - Z.of_nat nf))
          | None => None
          end
    | _ =>
        if Nat.eqb ni 0 then None
        else
          match exponent_part rest with
          | Some e => Some (Decimal i e)
          | None => None
          end
    end.

Definition negate (x : number) : number :=
  match x with
  | NaN => NaN
  | Infinity negative => Infinity (negb negative)
  | Decimal m e => Decimal (- m) e
  end.

(** the numeric literals of a string: hexadecimal, octal and binary
    integers without a sign, decimal numbers with one *)
Definition numeric_literal (s : string) : option number :=
  match s with
  | String "0" (String "x" rest) | String "0" (String "X" rest) => integer_literal 16 rest
  | String "0" (String "o" rest) | String "0" (String "O" rest) => integer_literal 8 rest
  | String "0" (String "b" rest) | String "0" (String "B" rest) => integer_literal 2 rest
  | String "+" rest => unsigned_decimal rest
  | String "-" rest => negate <$> unsigned_decimal rest
  | _ => unsigned_decimal s
  end.

Definition StringToNumber (s : string) : number :=
  let text := trim s in
  if String.eqb text "" then Decimal 0 0
  else default NaN (numeric_literal text).

(** Number conversion ([x / 100]) *)
Definition ToNumber (v : jsval) : option number :=
  match ToPrimitive v with
  | None => None
  | Some JUndefined => Some NaN
  | Some JNull => Some (Decimal 0 0)
  | Some (JBool b) => Some (Decimal (if b then 1 else 0) 0)
  | Some (JNum n) => Some (Decimal n 0)
  | Some (JStr s) => Some (StringToNumber s)
  | Some (JArr _) | Some (JObj _) => Some NaN
  end.

(** [m * 10^e <= a / 2^b] and [a / 2^b <= m * 10^e] *)
Definition at_most (m e a b : Z) : bool :=
  (m * 10 ^ Z.max e 0 * 2 ^ b <=? a * 10 ^ Z.max (- e) 0)%Z.
Definition at_least (m e a b : Z) : bool :=
  (a * 10 ^ Z.max (- e) 0 <=? m * 10 ^ Z.max e 0 * 2 ^ b)%Z.

(** [audio.volume = x / 100]: a value that is not a finite double is a
    TypeError, a gain outside 0..1 an IndexSizeError.  Everything from
    [2^1024 - 2^970] on is nearest to no finite double.  In doubles,
    [x / 100] is at most 1 when [x] is at most 100, the double nearest to
    everything up to [100 + 2^-47]; it is not below 0 when [x] is not below
    [-50 * 2^-1074], the double nearest to everything down to
    [-101 * 2^-1075]. *)
Definition set_volume (x : number) : option error :=
  match x with
  | NaN | Infinity _ => Some TypeError
  | Decimal m e =>
      if at_least (Z.abs m) e (2 ^ 1024 - 2 ^ 970) 0 then Some TypeError
      else if at_most m e (100 * 2 ^ 47 + 1) 47 && at_most (- m) e 101 1075 then None
      else Some IndexSizeError
  end.

(** [input.value = x]: [null] is the empty string *)
Definition input_value (v : jsval) : option string :=
  match v with
  | JNull => Some ""
  | _ => ToString v
  end.

(** [{ ...v }]: the own enumerable properties of a value.  An array spreads
    its elements under their indices, a string its UTF-16 code units, the
    other primitives nothing. *)
Definition utf16_unit (u : N) : string :=
  String (ascii_of_N (224 + N.shiftr u 12))
    (String (ascii_of_N (128 + N.land (N.shiftr u 6) 63))
       (String (ascii_of_N (128 + N.land u 63)) "")).

Fixpoint code_units (s : string) : list string :=
  match s with
  | EmptyString => []
  | String a r1 =>
      let x := N_of_ascii a in
      if (x <? 192)%N then String a "" :: code_units r1
      else
        match r1 with
        | String b r2 =>
            if (x <? 224)%N then String a (String b "") :: code_units r2
            else
              match r2 with
              | String c r3 =>
                  if (x <? 240)%N then String a (String b (String c "")) :: code_units r3
                  else
                    match r3 with
                    | String d r4 =>
                        let point :=
                          (N.shiftl (N.land x 7) 18 + N.shiftl (N.land (N_of_ascii b) 63) 12 +
                           N.shiftl (N.land (N_of_ascii c) 63) 6 + N.land (N_of_ascii d) 63)%N in
                        let v := (point - 65536)%N in
                        utf16_unit (55296 + N.shiftr v 10) ::
                        utf16_unit (56320 + N.land v 1023) :: code_units r4
                    | EmptyString => [s]
                    end
              | EmptyString => [s]
              end
        | EmptyString => [s]
        end
  end.

Definition own_properties (v : jsval) : gmap string jsval :=
  match v with
  | JObj fields => list_to_map fields
  | JArr xs => list_to_map (imap (λ i x, (pretty i, x)) xs)
  | JStr s => list_to_map (imap (λ i u, (pretty i, JStr u)) (code_units s))
  | _ => ∅
  end.

End JS.
Import JS.

(** ** The client and the browser around it *)

(** [WebSocket.readyState] *)
Inductive readyState : Type := CONNECTING | OPEN | CLOSING | CLOSED.

(** [Notification.permission] *)
Inductive permission : Type := Granted | Denied | Default.

(** [this.settings]: an object, used as a map from names to values.
    [loadSettings] assigns whatever the stored text parses to, so the field
    can also hold a value that is not an object: [null], a boolean, a
    number, a string or an array. *)
Inductive settings_value : Type :=
| Fields (o : gmap string jsval)
| NotObject (v : jsval).

(** A [localStorage] entry: the stored text is represented by the value it
    encodes, or is a text on which [JSON.parse] throws (the empty text, on
    which [loadSettings] does not call it, included). *)
Inductive stored : Type :=
| Corrupt
| Encodes (v : settings_value).

(** The fields of [this] that the methods assign ([maxReconnectAttempts] and
    [reconnectDelay] are set once in the constructor and are the constants
    below), followed by the browser state the methods read or change: every
    socket created so far with its ready state ([this.ws] is an index into
    that list), the number of pending [setTimeout] callbacks, the
    [localStorage] entries, the two DOM inputs that are read back and the
    notification permission. *)
Record client : Type := Client {
  ws : option nat;
  connected : bool;
  bridgeConnected : jsval;
  alerts : jsval;
  sounds : jsval;
  settings : settings_value;
  reconnectAttempts : Z;
  sockets : list readyState;
  timers : nat;
  localStorage : gmap string stored;
  server_url : string;
  severity_filter : string;
  notification_permission : permission
}.

Definition maxReconnectAttempts : Z := 5.
Definition reconnectDelay : Z := 3000.

Definition set_ws (v : option nat) (c : client) : client :=
  Client v (connected c) (bridgeConnected c) (alerts c) (sounds c) (settings c)
    (reconnectAttempts c) (sockets c) (timers c) (localStorage c) (server_url c)
    (severity_filter c) (notification_permission c).
Definition set_connected (v : bool) (c : client) : client :=
  Client (ws c) v (bridgeConnected c) (alerts c) (sounds c) (settings c)
    (reconnectAttempts c) (sockets c) (timers c) (localStorage c) (server_url c)
    (severity_filter c) (notification_permission c).
Definition set_bridgeConnected (v : jsval) (c : client) : client :=
  Client (ws c) (connected c) v (alerts c) (sounds c) (settings c)
    (reconnectAttempts c) (sockets c) (timers c) (localStorage c) (server_url c)
    (severity_filter c) (notification_permission c).
Definition set_alerts (v : jsval) (c : client) : client :=
  Client (ws c) (connected c) (bridgeConnected c) v (sounds c) (settings c)
    (reconnectAttempts c) (sockets c) (timers c) (localStorage c) (server_url c)
    (severity_filter c) (notification_permission c).
Definition set_sounds (v : jsval) (c : client) : client :=
  Client (ws c) (connected c) (bridgeConnected c) (alerts c) v (settings c)
    (reconnectAttempts c) (sockets c) (timers c) (localStorage c) (server_url c)
    (severity_filter c) (notification_permission c).
Definition set_settings (v : settings_value) (c : client) : client :=
  Client (ws c) (connected c) (bridgeConnected c) (alerts c) (sounds c) v
    (reconnectAttempts c) (sockets c) (timers c) (localStorage c) (server_url c)
    (severity_filter c) (notification_permission c).
Definition set_reconnectAttempts (v : Z) (c : client) : client :=
  Client (ws c) (connected c) (bridgeConnected c) (alerts c) (sounds c) (settings c)
    v (sockets c) (timers c) (localStorage c) (server_url c)
    (severity_filter c) (notification_permission c).
Definition set_sockets (v : list readyState) (c : client) : client :=
  Client (ws c) (connected c) (bridgeConnected c) (alerts c) (sounds c) (settings c)
    (reconnectAttempts c) v (timers c) (localStorage c) (server_url c)
    (severity_filter c) (notification_permission c).
Definition set_timers (v : nat) (c : client) : client :=
  Client (ws c) (connected c) (bridgeConnected c) (alerts c) (sounds c) (settings c)
    (reconnectAttempts c) (sockets c) v (localStorage c) (server_url c)
    (severity_filter c) (notification_permission c).
Definition set_localStorage (v : gmap string stored) (c : client) : client :=
  Client (ws c) (connected c) (bridgeConnected c) (alerts c) (sounds c) (settings c)
    (reconnectAttempts c) (sockets c) (timers c) v (server_url c)
    (severity_filter c) (notification_permission c).
Definition set_server_url (v : string) (c : client) : client :=
  Client (ws c) (connected c) (bridgeConnected c) (alerts c) (sounds c) (settings c)
    (reconnectAttempts c) (sockets c) (timers c) (localStorage c) v
    (severity_filter c) (notification_permission c).

(** What a method does besides assigning fields: the writes to the alert
    array (the three transitions of the reconciliation), the calls to the
    side-effect and presentation methods, and the calls to the browser. *)
Inductive action : Type :=
| AlertsPush (alert : jsval)
| AlertsAssign (index : nat) (alert : jsval)
| AlertsSplice (index : nat)
| PlaySound (soundName : jsval)
| SystemBeep
| AudioPlay (url volume : jsval)
| ShowNotification (title : string) (alert : jsval)
| NewNotification (title : string) (name instance : jsval)
| RequestPermission
| RenderAlerts
| UpdateStats
| UpdateSoundsUI
| UpdateConnectionUI
| ShowSnackbar (message : string) (isError : bool)
| CloseSettings
| ConsoleLog (message : string) (args : list jsval)
| ConsoleError (message : string)
| NewWebSocket (socket : nat)
| WsSend (socket : nat) (message : jsval)
| WsClose (socket : nat)
| SetTimeout (delay : Z)
| Fetch (method url : string) (body : gmap string jsval).

Definition trace : Type := list action.

(** ** Methods as computations *)

(** A method body runs on the client, makes calls, and either returns or
    throws; in both cases the fields assigned so far stay assigned. *)
Inductive res (A : Type) : Type :=
| Ok (a : A) (c : client) (t : trace)
| Err (e : error) (c : client) (t : trace).
Arguments Ok {A} a c t.
Arguments Err {A} e c t.

Definition M (A : Type) : Type := client -> res A.

#[global] Instance M_ret : MRet M := fun A a c => Ok a c [].
#[global] Instance M_bind : MBind M := fun A B k m c =>
  match m c with
  | Ok a c1 t1 =>
      match k a c1 with
      | Ok b c2 t2 => Ok b c2 (t1 ++ t2)
      | Err e c2 t2 => Err e c2 (t1 ++ t2)
      end
  | Err e c1 t1 => Err e c1 t1
  end.

Definition gets {A : Type} (f : client -> A) : M A := fun c => Ok (f c) c [].
Definition modify (f : client -> client) : M unit := fun c => Ok tt (f c) [].
Definition emit (a : action) : M unit := fun c => Ok tt c [a].
Definition throw {A : Type} (e : error) : M A := fun c => Err e c [].

(** a property read, or a call of an array method, that may throw *)
Definition try {A : Type} (o : option A) : M A :=
  match o with
  | Some v => mret v
  | None => throw TypeError
  end.

Definition final {A : Type} (r : res A) : client :=
  match r with Ok _ c _ | Err _ c _ => c end.
Definition calls {A : Type} (r : res A) : trace :=
  match r with Ok _ _ t | Err _ _ t => t end.
Definition thrown {A : Type} (r : res A) : option error :=
  match r with Ok _ _ _ => None | Err e _ _ => Some e end.

(** [settings.k]: [None] is the TypeError raised on [null] *)
Definition read (s : settings_value) (k : string) : option jsval :=
  match s with
  | Fields o => Some (default JUndefined (o !! k))
  | NotObject v => get v k
  end.

(** [{ ...settings }] *)
Definition fields_of (s : settings_value) : gmap string jsval :=
  match s with
  | Fields o => o
  | NotObject v => own_properties v
  end.

(** [this.settings.k] *)
Definition this_settings (k : string) : M jsval :=
  s ← gets settings;
  try (read s k).

(** the value of [this.settings.k], [undefined] where the read throws *)
Definition setting (k : string) (c : client) : jsval :=
  default JUndefined (read (settings c) k).
Arguments setting : simpl never.

(** ** Side-effect and presentation methods

    These methods assign no field of [this].  They are embedded as far as
    their reads of the client and their conversions go, because a read of a
    malformed field or a conversion of a malformed value throws and ends the
    calling handler.  The markup they build is not modelled. *)

(** [playSound(soundName)].  [AudioPlay url volume] stands for
    [audio.play()] on the element [new Audio(url)] once its gain is set to
    [volume / 100]. *)
Definition playSound (soundName : jsval) : M unit :=
  emit (PlaySound soundName);;
  if negb (truthy soundName) || is_str soundName "Без звука" then mret tt
  else if is_str soundName "Системный звук" then emit SystemBeep
  else
    catalog ← gets sounds;
    sound ← try (match catalog with
                 | JArr xs =>
                     find (fun s => name ← get s "name"; Some (strict_eq name soundName)) xs
                 | _ => None
                 end);
    if truthy sound then
      url ← try (get sound "url");
      if truthy url then
        _ ← try (ToString url);
        volume ← this_settings "volume";
        gain ← try (ToNumber volume);
        match set_volume gain with
        | Some e => throw e
        | None => emit (AudioPlay url volume)
        end
      else mret tt
    else mret tt.

(** [showNotification(title, alert)] *)
Definition showNotification (title : string) (alert : jsval) : M unit :=
  emit (ShowNotification title alert);;
  enabled ← this_settings "showNotifications";
  if negb (truthy enabled) then mret tt
  else
    perm ← gets notification_permission;
    match perm with
    | Granted =>
        name ← try (get alert "name");
        _ ← try (ToString name);
        instance ← try (get alert "instance");
        _ ← try (ToString instance);
        emit (NewNotification title name instance)
    | Default => emit RequestPermission
    | Denied => mret tt
    end.

(** The row of an alert in the table: the reads and the conversions of the
    template, in its order.  [new Date(x)] converts [x] to a primitive. *)
Definition row (alert : jsval) : option unit :=
  severity ← get alert "severity";
  _ ← ToString severity;
  starts_at ← get alert "starts_at";
  _ ← (if truthy starts_at then ToPrimitive starts_at else Some (JStr ""));
  _ ← get alert "status";
  severity ← get alert "severity";
  _ ← ToString severity;
  name ← get alert "name";
  _ ← ToString name;
  instance ← get alert "instance";
  _ ← ToString instance;
  description ← get alert "description";
  _ ← ToString (if truthy description then description else JStr "");
  id ← get alert "id";
  _ ← ToString id;
  generator_url ← get alert "generator_url";
  _ ← (if truthy generator_url then ToString generator_url else Some "");
  Some tt.

(** [renderAlerts()] *)
Definition renderAlerts : M unit :=
  emit RenderAlerts;;
  flt ← gets severity_filter;
  all ← gets alerts;
  filteredAlerts ←
    (if negb (String.eqb flt "all") then
       match all with
       | JArr xs =>
           ys ← try (filter (fun a => sev ← get a "severity"; Some (is_str sev flt)) xs);
           mret (JArr ys)
       | _ => throw TypeError
       end
     else mret all);
  len ← try (get filteredAlerts "length");
  if strict_eq len (JNum 0) then mret tt
  else
    match filteredAlerts with
    | JArr xs => _ ← try (mapM row xs); mret tt
    | _ => throw TypeError
    end.

(** [updateStats()] *)
Definition updateStats : M unit :=
  emit UpdateStats;;
  all ← gets alerts;
  _ ← try (get all "length");
  match all with
  | JArr xs =>
      _ ← try (filter (fun a => sev ← get a "severity"; Some (is_str sev "critical")) xs);
      mret tt
  | _ => throw TypeError
  end.

(** One [<option>] of a dropdown: the template converts [opt], compares it
    with the setting, converts it again. *)
Definition option_markup (s : settings_value) (k : string) (opt : jsval) : option unit :=
  _ ← ToString opt;
  _ ← read s k;
  _ ← ToString opt;
  Some tt.

(** [updateSoundDropdowns()] *)
Definition updateSoundDropdowns : M unit :=
  catalog ← gets sounds;
  names ← match catalog with
          | JArr xs => try (mapM (fun s => get s "name") xs)
          | _ => throw TypeError
          end;
  let options := JStr "Без звука" :: JStr "Системный звук" :: names in
  s ← gets settings;
  _ ← try (mapM (option_markup s "alertSound") options);
  _ ← try (mapM (option_markup s "resolvedSound") options);
  mret tt.

(** The entry of a sound in the list: the name twice, and the id unless the
    sound is a default one. *)
Definition sound_row (sound : jsval) : option unit :=
  name ← get sound "name";
  _ ← ToString name;
  name ← get sound "name";
  _ ← ToString name;
  is_default ← get sound "is_default";
  _ ← (if negb (truthy is_default) then id ← get sound "id"; ToString id else Some "");
  Some tt.

(** [updateSoundsUI()] *)
Definition updateSoundsUI : M unit :=
  emit UpdateSoundsUI;;
  catalog ← gets sounds;
  match catalog with
  | JArr xs => _ ← try (mapM sound_row xs); updateSoundDropdowns
  | _ => throw TypeError
  end.

Definition updateConnectionUI : M unit := emit UpdateConnectionUI.
Definition showSnackbar (message : string) (isError : bool) : M unit :=
  emit (ShowSnackbar message isError).
Definition closeSettings : M unit := emit CloseSettings.

(** ** Alert reconciliation *)

(** The three writes to [this.alerts].  They run after [findIndex] has
    succeeded, so the field holds an array. *)
Definition alerts_splice (index : nat) : M unit :=
  arr ← gets alerts;
  match arr with
  | JArr xs => modify (set_alerts (JArr (delete index xs)));; emit (AlertsSplice index)
  | _ => throw TypeError
  end.

Definition alerts_assign (index : nat) (alert : jsval) : M unit :=
  arr ← gets alerts;
  match arr with
  | JArr xs => modify (set_alerts (JArr (<[index := alert]> xs)));; emit (AlertsAssign index alert)
  | _ => throw TypeError
  end.

Definition alerts_push (alert : jsval) : M unit :=
  arr ← gets alerts;
  match arr with
  | JArr xs => modify (set_alerts (JArr (xs ++ [alert])));; emit (AlertsPush alert)
  | _ => throw TypeError
  end.

(** the callback [a => a.id === alert.id] *)
Definition same_id (alert a : jsval) : option bool :=
  x ← get a "id"; y ← get alert "id"; Some (strict_eq x y).

(** [addOrUpdateAlert(alert)] *)
Definition addOrUpdateAlert (alert : jsval) : M unit :=
  arr ← gets alerts;
  index ← try (match arr with
               | JArr xs => findIndex (same_id alert) xs
               | _ => None
               end);
  match index with
  | Some index =>
      status ← try (get alert "status");
      if is_str status "resolved" then
        alerts_splice index;;
        resolvedSound ← this_settings "resolvedSound";
        playSound resolvedSound
      else
        alerts_assign index alert
  | None =>
      status ← try (get alert "status");
      if is_str status "firing" then
        alerts_push alert;;
        alertSound ← this_settings "alertSound";
        playSound alertSound;;
        showNotification "Новый алерт" alert
      else mret tt
  end;;
  renderAlerts;;
  updateStats.

(** ** Message dispatch *)

(** [handleMessage(data)] *)
Definition handleMessage (data : jsval) : M unit :=
  type ← try (get data "type");
  if is_str type "connection" then
    message ← try (get data "message");
    emit (ConsoleLog "Bridge connection:" [message])
  else if is_str type "status" then
    v ← try (get data "connected_to_bridge");
    modify (set_bridgeConnected v);;
    updateConnectionUI
  else if is_str type "alert" then
    alert ← try (get data "data");
    addOrUpdateAlert alert
  else if is_str type "alerts_list" then
    v ← try (get data "alerts");
    modify (set_alerts v);;
    renderAlerts
  else if is_str type "sounds_list" then
    v ← try (get data "sounds");
    modify (set_sounds v);;
    updateSoundsUI
  else if is_str type "bridge.message" then
    message ← try (get data "message");
    mtype ← try (get message "type");
    if is_str mtype "alert" then
      alert ← try (get message "data");
      addOrUpdateAlert alert
    else mret tt
  else emit (ConsoleLog "Unknown message type:" [type]).

(** An inbound frame: [JSON.parse(event.data)] either throws a SyntaxError
    or returns the value the text denotes. *)
Inductive frame : Type :=
| Garbled
| Json (data : jsval).

Definition JSON_parse (f : frame) : M jsval :=
  match f with
  | Garbled => throw SyntaxError
  | Json data => mret data
  end.

(** [ws.onmessage] *)
Definition onmessage (f : frame) : M unit :=
  data ← JSON_parse f;
  handleMessage data.

(** ** Transport channel *)

(** [sendMessage(message)] *)
Definition sendMessage (message : jsval) : M unit :=
  w ← gets ws;
  socks ← gets sockets;
  match w with
  | Some k =>
      match socks !! k with
      | Some OPEN => emit (WsSend k message)
      | _ => mret tt
      end
  | None => mret tt
  end.

(** [setTimeout(() => this.connectWebSocket(), delay)] *)
Definition setTimeout (delay : Z) : M unit :=
  modify (fun c => set_timers (S (timers c)) c);;
  emit (SetTimeout delay).

(** [ws.onopen] *)
Definition onopen : M unit :=
  emit (ConsoleLog "WebSocket connected" []);;
  modify (set_connected true);;
  updateConnectionUI;;
  sendMessage (JObj [("type", JStr "get_alerts")]);;
  sendMessage (JObj [("type", JStr "get_sounds")]).

(** [ws.onclose] *)
Definition onclose : M unit :=
  emit (ConsoleLog "WebSocket disconnected" []);;
  modify (set_connected false);;
  modify (set_bridgeConnected (JBool false));;
  updateConnectionUI;;
  n ← gets reconnectAttempts;
  if (n <? maxReconnectAttempts)%Z then
    modify (set_reconnectAttempts (n + 1)%Z);;
    setTimeout reconnectDelay
  else mret tt.

(** [ws.onerror] *)
Definition onerror : M unit := emit (ConsoleError "WebSocket error:").

(** [connectWebSocket()]: a new socket, in state CONNECTING, becomes
    [this.ws]; its four handlers are the definitions above. *)
Definition connectWebSocket : M unit :=
  socks ← gets sockets;
  let k := length socks in
  modify (set_sockets (socks ++ [CONNECTING]));;
  modify (set_ws (Some k));;
  emit (NewWebSocket k).

(** [ws.close()]: an open or connecting socket starts closing; the browser
    delivers its close event later. *)
Definition ws_close (k : nat) : M unit :=
  socks ← gets sockets;
  match socks !! k with
  | Some CONNECTING | Some OPEN => modify (set_sockets (<[k := CLOSING]> socks))
  | _ => mret tt
  end;;
  emit (WsClose k).

(** [toggleConnection()] *)
Definition toggleConnection : M unit :=
  isConnected ← gets connected;
  if (isConnected : bool) then
    w ← gets ws;
    k ← try w;
    ws_close k
  else
    modify (set_reconnectAttempts 0);;
    connectWebSocket.

(** ** Settings *)

(** The inputs of the settings dialog that [saveSettings] reads;
    [volume_slider] is the integer [parseInt] makes of the slider. *)
Record form : Type := Form {
  bridge_url_input : string;
  auto_connect_checkbox : bool;
  show_notifications_checkbox : bool;
  volume_slider : Z;
  alert_sound_select : string;
  resolved_sound_select : string
}.

(** What [await fetch(...)] followed by [await response.json()] gives. *)
Inductive response : Type :=
| FetchRejected
| BodyNotJson
| Body (data : jsval).

Definition newSettings (f : form) : gmap string jsval :=
  list_to_map
    [ ("bridgeServerUrl", JStr (bridge_url_input f));
      ("autoConnect", JBool (auto_connect_checkbox f));
      ("showNotifications", JBool (show_notifications_checkbox f));
      ("notificationVolume", JNum (volume_slider f));
      ("alertSound", JStr (alert_sound_select f));
      ("resolvedSound", JStr (resolved_sound_select f)) ].

(** [{ ...a, ...b }] *)
Definition spread (a b : gmap string jsval) : gmap string jsval := b ∪ a.

(** [saveSettings()], with the answer of the server as an argument. *)
Definition saveSettings (f : form) (r : response) : M unit :=
  let newSettings := newSettings f in
  emit (Fetch "POST" "/api/settings/update/" newSettings);;
  data ← match r with
         | FetchRejected => throw NetworkError
         | BodyNotJson => throw SyntaxError
         | Body data => mret data
         end;
  success ← try (get data "success");
  if truthy success then
    old ← gets settings;
    modify (set_settings (Fields (spread (fields_of old) newSettings)));;
    showSnackbar "Настройки сохранены" false;;
    closeSettings;;
    url ← this_settings "bridgeServerUrl";
    field ← gets server_url;
    if negb (strict_eq url (JStr field)) then
      text ← try (input_value url);
      modify (set_server_url text)
    else mret tt
  else showSnackbar "Ошибка сохранения" true.

(** [saveSettingsToStorage()].  No method of the class calls it. *)
Definition saveSettingsToStorage : M unit :=
  modify (fun c =>
    set_localStorage (<["alertbridge-settings" := Encodes (settings c)]> (localStorage c)) c).

(** [loadSettings()] *)
Definition loadSettings : M unit :=
  storage ← gets localStorage;
  match storage !! "alertbridge-settings" with
  | Some (Encodes v) => modify (set_settings v)
  | Some Corrupt => mret tt
  | None => mret tt
  end.

(** [new AlertBridgeClient()] *)
Definition fresh (url flt : string) (storage : gmap string stored) (perm : permission) : client :=
  {| ws := None;
     connected := false;
     bridgeConnected := JBool false;
     alerts := JArr [];
     sounds := JArr [];
     settings :=
       Fields (list_to_map
         [ ("bridgeServerUrl", JStr url);
           ("alertSound", JStr "alert.wav");
           ("resolvedSound", JStr "resolved.wav");
           ("volume", JNum 70);
           ("autoConnect", JBool true);
           ("showNotifications", JBool true) ]);
     reconnectAttempts := 0;
     sockets := [];
     timers := 0;
     localStorage := storage;
     server_url := url;
     severity_filter := flt;
     notification_permission := perm |}.

Definition constructor : M unit :=
  loadSettings;;
  connectWebSocket.

(** ** The event loop *)

(** What the browser delivers to the client: the events of socket [k], an
    expired reconnect timer, a click on the connect button. *)
Inductive event : Type :=
| SocketOpen (k : nat)
| SocketClose (k : nat)
| SocketError (k : nat)
| SocketMessage (k : nat) (f : frame)
| TimerFires
| ClickConnect.

(** When the browser can deliver an event. *)
Definition enabled (c : client) (ev : event) : bool :=
  match ev with
  | SocketOpen k =>
      match sockets c !! k with Some CONNECTING => true | _ => false end
  | SocketClose k =>
      match sockets c !! k with Some CLOSED | None => false | _ => true end
  | SocketError k =>
      match sockets c !! k with Some _ => true | None => false end
  | SocketMessage k _ =>
      match sockets c !! k with Some OPEN => true | _ => false end
  | TimerFires => negb (Nat.eqb (timers c) 0)
  | ClickConnect => true
  end.

(** What the browser changes before it runs the handler. *)
Definition browser (ev : event) (c : client) : client :=
  match ev with
  | SocketOpen k => set_sockets (<[k := OPEN]> (sockets c)) c
  | SocketClose k => set_sockets (<[k := CLOSED]> (sockets c)) c
  | TimerFires => set_timers (pred (timers c)) c
  | _ => c
  end.

Definition handler (ev : event) : M unit :=
  match ev with
  | SocketOpen _ => onopen
  | SocketClose _ => onclose
  | SocketError _ => onerror
  | SocketMessage _ f => onmessage f
  | TimerFires => connectWebSocket
  | ClickConnect => toggleConnection
  end.

Definition deliver (ev : event) (c : client) : res unit :=
  handler ev (browser ev c).

(** A run: the events are handled one after the other; an exception that
    leaves a handler is reported by the browser and the loop goes on. *)
Fixpoint run (evs : list event) (c : client) : client * trace :=
  match evs with
  | [] => (c, [])
  | ev :: rest =>
      let r := deliver ev c in
      let '(c', t) := run rest (final r) in
      (c', calls r ++ t)
  end.

(** a run the browser can produce *)
Fixpoint possible (evs : list event) (c : client) : bool :=
  match evs with
  | [] => true
  | ev :: rest => enabled c ev && possible rest (final (deliver ev c))
  end.

(** ** Vocabulary of the specification *)

(** The transition events of the reconciliation engine are the three writes
    of [addOrUpdateAlert] to the alert array. *)
Inductive transition : Type :=
| Arrived (alert : jsval)
| Updated (index : nat) (alert : jsval)
| Resolved (index : nat).

Definition transition_of (a : action) : option transition :=
  match a with
  | AlertsPush alert => Some (Arrived alert)
  | AlertsAssign index alert => Some (Updated index alert)
  | AlertsSplice index => Some (Resolved index)
  | _ => None
  end.

Definition transitions (t : trace) : list transition := omap transition_of t.

(** the sound names [playSound] was called with *)
Definition sound_of (a : action) : option jsval :=
  match a with
  | PlaySound soundName => Some soundName
  | _ => None
  end.
Definition sounds_triggered (t : trace) : list jsval := omap sound_of t.

(** an action of the side-effect dispatcher: a sound or a notification *)
Definition side_effect (a : action) : bool :=
  match a with
  | PlaySound _ | SystemBeep | AudioPlay _ _
  | ShowNotification _ _ | NewNotification _ _ _ | RequestPermission => true
  | _ => false
  end.

Definition id_of (a : jsval) : jsval := default JUndefined (get a "id").
Definition status_of (a : jsval) : jsval := default JUndefined (get a "status").

(** no two of the ids are [===] *)
Fixpoint distinct (ids : list jsval) : Prop :=
  match ids with
  | [] => True
  | x :: rest => Forall (λ y, strict_eq x y = false) rest ∧ distinct rest
  end.


(** no entry has the id [X] *)
Definition absent (X : jsval) (xs : list jsval) : Prop :=
  Forall (λ e, strict_eq (id_of e) X = false) xs.

(** The array [addOrUpdateAlert(alert)] leaves in [this.alerts]. *)
Definition reconcile (alert : jsval) (xs : list jsval) : list jsval :=
  match findIndex (same_id alert) xs, get alert "status" with
  | Some (Some index), Some status =>
      if is_str status "resolved" then delete index xs else <[index := alert]> xs
  | Some None, Some status =>
      if is_str status "firing" then xs ++ [alert] else xs
  | _, _ => xs
  end.


(** the type tags [handleMessage] has a case for *)
Definition recognized (type : jsval) : bool :=
  is_str type "connection" || is_str type "status" || is_str type "alert" ||
  is_str type "alerts_list" || is_str type "sounds_list" || is_str type "bridge.message".

(** the [alerts_list] message carrying the array [xs] *)
Definition snapshot (xs : list jsval) : jsval :=
  JObj [("type", JStr "alerts_list"); ("alerts", JArr xs)].

(** the server answered, and its answer reports success *)
Definition accepted (r : response) : bool :=
  match r with
  | Body data =>
      match get data "success" with
      | Some success => truthy success
      | None => false
      end
  | _ => false
  end.

(** Classes of events. *)
Definition is_click (ev : event) : bool :=
  match ev with ClickConnect => true | _ => false end.
Definition is_open (ev : event) : bool :=
  match ev with SocketOpen _ => true | _ => false end.
Definition is_close (ev : event) : bool :=
  match ev with SocketClose _ => true | _ => false end.

(** the number of closures in a run *)
Definition closures (evs : list event) : nat := length (List.filter is_close evs).

(** the number of reconnect timers a trace schedules, and of sockets it creates *)
Definition is_setTimeout (a : action) : bool :=
  match a with SetTimeout _ => true | _ => false end.
Definition is_newWebSocket (a : action) : bool :=
  match a with NewWebSocket _ => true | _ => false end.
Definition scheduled (t : trace) : nat := length (List.filter is_setTimeout t).
Definition created (t : trace) : nat := length (List.filter is_newWebSocket t).
Arguments scheduled : simpl never.
Arguments created : simpl never.

(** two clients agree on a projection of their fields *)
Definition agree_on {A : Type} (proj : client → A) : relation client :=
  λ c c', proj c = proj c'.

(** the fields and browser state of the transport channel *)
Definition channel (c : client) : option nat * bool * Z * list readyState * nat :=
  (ws c, connected c, reconnectAttempts c, sockets c, timers c).

(** an action that neither schedules a timer nor creates a socket *)
Definition no_reconnect (a : action) : Prop :=
  is_setTimeout a = false ∧ is_newWebSocket a = false.

(** A computation that moves the client along [R] and whose calls all
    satisfy [P]. *)
Definition keeps {A : Type} (R : relation client) (P : action → Prop) (m : M A) : Prop :=
  ∀ c, R c (final (m c)) ∧ Forall P (calls (m c)).

(** an action that is neither a write to the alert array nor a call of
    [playSound] *)
Definition background (a : action) : Prop :=
  transition_of a = None ∧ sound_of a = None.

(** ** The other methods of the class *)

(** [try { ... } catch (e) { ... }], and [promise.catch(...)] *)
Definition catch {A : Type} (m : M A) (h : error → M A) : M A := λ c,
  match m c with
  | Ok a c1 t1 => Ok a c1 t1
  | Err e c1 t1 =>
      match h e c1 with
      | Ok a c2 t2 => Ok a c2 (t1 ++ t2)
      | Err e' c2 t2 => Err e' c2 (t1 ++ t2)
      end
  end.

(** [await response.json()] on the answer of a [fetch] *)
Definition await_json (r : response) : M jsval :=
  match r with
  | FetchRejected => throw NetworkError
  | BodyNotJson => throw SyntaxError
  | Body data => mret data
  end.

(** [refreshAlerts()] *)
Definition refreshAlerts : M unit :=
  sendMessage (JObj [("type", JStr "get_alerts")]);;
  showSnackbar "Список обновлен" false.

(** [acknowledgeAlert(alertId)], with the answer of the server.  The id is
    the text of the button's [data-id] attribute. *)
Definition acknowledgeAlert (alertId : string) (r : response) : M unit :=
  emit (Fetch "POST" ("/api/alerts/" +:+ alertId +:+ "/ack/") ∅);;
  catch
    (data ← await_json r;
     success ← try (get data "success");
     if truthy success then showSnackbar "Алерт принят" false else mret tt)
    (λ _, emit (ConsoleError "Error acknowledging alert:")).

(** What [openSettings] writes into the inputs of the dialog: the texts
    assigned to the two [value]s (the slider then keeps a text only if it is a
    number in its range) and the two [checked] flags. *)
Record dialog : Type := Dialog {
  bridge_url_value : string;
  auto_connect_checked : bool;
  show_notifications_checked : bool;
  volume_value : string
}.

(** [openSettings()], with the answer of the server; it returns when the
    dialog is shown. *)
Definition openSettings (r : response) : M dialog :=
  emit (Fetch "GET" "/api/settings/" ∅);;
  data ← await_json r;
  old ← gets settings;
  modify (set_settings (Fields (spread (fields_of old) (own_properties data))));;
  url ← this_settings "bridgeServerUrl";
  url_text ← try (input_value url);
  autoConnect ← this_settings "autoConnect";
  showNotifications ← this_settings "showNotifications";
  volume ← this_settings "notification_volume";
  volume_text ← try (input_value volume);
  updateSoundDropdowns;;
  mret (Dialog url_text (truthy autoConnect) (truthy showNotifications) volume_text).

(** [deleteSound(soundId)]: the id is the text of the button's [data-id]
    attribute; [confirmed] is the user's answer to [confirm(...)]. *)
Definition deleteSound (soundId : string) (confirmed : bool) (r : response) : M unit :=
  if negb confirmed then mret tt
  else
    emit (Fetch "POST" ("/api/sounds/" +:+ soundId +:+ "/delete/") ∅);;
    data ← await_json r;
    success ← try (get data "success");
    if truthy success then
      catalog ← gets sounds;
      kept ← try (match catalog with
                  | JArr xs =>
                      filter (λ s, id ← get s "id"; Some (negb (strict_eq id (JStr soundId)))) xs
                  | _ => None
                  end);
      modify (set_sounds (JArr kept));;
      updateSoundsUI;;
      showSnackbar "Звук удален" false
    else showSnackbar "Ошибка удаления" true.

(** [uploadSound(file, customName)]: [read] is the data URL the FileReader
    hands to [onload], if the read succeeds; no handler is installed for a
    failed read. *)
Definition uploadSound (name customName : string) (read : option string) (r : response) : M unit :=
  match read with
  | None => mret tt
  | Some base64Data =>
      emit (Fetch "POST" "/api/sounds/upload/"
              (list_to_map [("file", JStr base64Data); ("name", JStr name);
                            ("custom_name", JStr customName)]));;
      data ← await_json r;
      success ← try (get data "success");
      if truthy success then
        sound ← try (get data "sound");
        catalog ← gets sounds;
        match catalog with
        | JArr xs => modify (set_sounds (JArr (xs ++ [sound])))
        | _ => throw TypeError
        end;;
        updateSoundsUI;;
        showSnackbar "Звук загружен" false
      else
        error ← try (get data "error");
        text ← try (ToString error);
        showSnackbar ("Ошибка загрузки: " +:+ text) true
  end.

(** the loop of [getCSRFToken] over the cookies *)
Fixpoint scanCookies (cookies : list string) : jsval :=
  match cookies with
  | [] => JStr ""
  | cookie :: rest =>
      match split "=" (trim cookie) with
      | key :: values =>
          if String.eqb key "csrftoken"
          then match values with value :: _ => JStr value | [] => JUndefined end
          else scanCookies rest
      | [] => scanCookies rest
      end
  end.

(** [getCSRFToken()], on the text of [document.cookie] *)
Definition getCSRFToken (cookie : string) : jsval :=
  scanCookies (split ";" cookie).

(** [fileSelected(event)]: [file] is the name of the chosen file, if any,
    [answer] what [prompt(...)] returns ([None] when it is cancelled).  The
    result is the call of [uploadSound] it makes. *)
Definition fileSelected (file : option string) (answer : option string)
    (read : option string) (r : response) : M unit :=
  match file with
  | None => mret tt
  | Some name =>
      match answer with
      | None => mret tt
      | Some customName =>
          let stem := default "" (head (split "." name)) in
          uploadSound name (if String.eqb customName "" then stem else customName) read r
      end
  end.

(** ** Vocabulary for the other methods *)

(** a sound name that [playSound] handles without the catalog *)
Definition bypasses_catalog (soundName : jsval) : bool :=
  negb (truthy soundName) || is_str soundName "Без звука" || is_str soundName "Системный звук".

(** an array of values with properties *)
Definition readable (xs : list jsval) : Prop := Forall (λ a, nullish a = false) xs.

(** no entry of the catalog is named [soundName] *)
Definition unnamed (soundName : jsval) (xs : list jsval) : Prop :=
  Forall (λ s, strict_eq (default JUndefined (get s "name")) soundName = false) xs.

Definition is_audio (a : action) : bool :=
  match a with AudioPlay _ _ => true | _ => false end.
Definition is_notification (a : action) : bool :=
  match a with NewNotification _ _ _ => true | _ => false end.
Definition is_permission_request (a : action) : bool :=
  match a with RequestPermission => true | _ => false end.
Definition is_snackbar (a : action) : bool :=
  match a with ShowSnackbar _ _ => true | _ => false end.

(** what an inbound frame may change: the alert array, the sound catalog
    and the bridge flag; [rest_of] is everything else *)
Definition rest_of (c : client) :=
  (ws c, connected c, settings c, reconnectAttempts c, sockets c, timers c,
   localStorage c, server_url c, severity_filter c, notification_permission c).

(** the number of expired timers in a run *)
Definition is_timer (ev : event) : bool :=
  match ev with TimerFires => true | _ => false end.
Definition fired (evs : list event) : nat := length (List.filter is_timer evs).

(** [this.ws] is the socket created last *)
Definition ws_latest (c : client) : Prop :=
  ws c = if Nat.eqb (length (sockets c)) 0 then None else Some (pred (length (sockets c))).

(** the handle [this.ws] and the number of sockets *)
Definition handle (c : client) : option nat * nat := (ws c, length (sockets c)).

(** a string in which no character satisfies [p] *)
Fixpoint lacks (p : ascii → bool) (s : string) : bool :=
  match s with
  | EmptyString => true
  | String a rest => negb (p a) && lacks p rest
  end.

(** a byte of white space, or of a character beyond ASCII *)
Definition special (a : ascii) : bool :=
  whitespace a || Nat.leb 128 (nat_of_ascii a).

(** a cookie name or value: ASCII text with no blank and no [;] *)
Definition token (s : string) : bool :=
  lacks (λ a, whitespace a || Ascii.eqb a ";" || Nat.leb 128 (nat_of_ascii a)) s.

(** [document.cookie] for a jar of cookies: [k1=v1; k2=v2; ...] *)
Fixpoint cookie_text (jar : list (string * string)) : string :=
  match jar with
  | [] => ""
  | [(k, v)] => k +:+ "=" +:+ v
  | (k, v) :: rest => k +:+ "=" +:+ v +:+ "; " +:+ cookie_text rest
  end.

(** the value of the first cookie of the jar named [name] *)
Fixpoint first_cookie (name : string) (jar : list (string * string)) : option string :=
  match jar with
  | [] => None
  | (k, v) :: rest => if String.eqb k name then Some v else first_cookie name rest
  end.

(** the answer of the server cannot be used: the request failed, the body
    is not JSON, or it is [null] *)
Definition unreadable (r : response) : bool :=
  match r with
  | Body data => nullish data
  | _ => true
  end.

(** [this.settings] is not [null]: its properties can be read *)
Definition settings_readable (c : client) : bool :=
  match settings c with
  | Fields _ => true
  | NotObject v => negb (nullish v)
  end.

(** the call [playSound(this.settings.k)] *)
Definition played (k : string) (c : client) : trace :=
  if settings_readable c then [PlaySound (setting k c)] else [].

(** a property name that is no array index: it does not start with a digit *)
Definition named (k : string) : Prop :=
  match k with
  | String d _ => ¬ (48 ≤ nat_of_ascii d ≤ 57)%nat
  | EmptyString => True
  end.

(** a value that converts to a string *)
Definition convertible (v : jsval) : bool :=
  match ToString v with Some _ => true | None => false end.

(** an alert the table can show: its row is built without an exception *)
Definition displayable (alert : jsval) : Prop := row alert = Some tt.

(** a sound the list of sounds can show *)
Definition listable (sound : jsval) : Prop := sound_row sound = Some tt.

(** ** Lemmas *)

(** *** The monad *)

Section monad_laws.
Context {A B : Type}.
Implicit Types (m : M A) (k : A → M B) (c : client).

Lemma final_bind m k c :
  final ((m ≫= k) c) =
  match m c with Ok a c1 _ => final (k a c1) | Err _ c1 _ => c1 end.
Proof.
  unfold mbind, M_bind. destruct (m c) as [a c1 t1|e c1 t1]; [|done].
  by destruct (k a c1).
Qed.

Lemma calls_bind m k c :
  calls ((m ≫= k) c) =
  match m c with Ok a c1 t1 => t1 ++ calls (k a c1) | Err _ _ t1 => t1 end.
Proof.
  unfold mbind, M_bind. destruct (m c) as [a c1 t1|e c1 t1]; [|done].
  by destruct (k a c1).
Qed.

Lemma thrown_bind m k c :
  thrown ((m ≫= k) c) =
  match m c with Ok a c1 _ => thrown (k a c1) | Err e _ _ => Some e end.
Proof.
  unfold mbind, M_bind. destruct (m c) as [a c1 t1|e c1 t1]; [|done].
  by destruct (k a c1).
Qed.
End monad_laws.

Section keeps.
Context (R : relation client) `{!PreOrder R} (P : action → Prop).

Lemma keeps_ret {A} (a : A) : keeps R P (mret a).
Proof. intros c. by split; [|constructor]. Qed.
Lemma keeps_throw {A} e : keeps R P (@throw A e).
Proof. intros c. by split; [|constructor]. Qed.
Lemma keeps_gets {A} (f : client → A) : keeps R P (gets f).
Proof. intros c. by split; [|constructor]. Qed.
Lemma keeps_try {A} (o : option A) : keeps R P (try o).
Proof. destruct o; [apply keeps_ret|apply keeps_throw]. Qed.
Lemma keeps_emit a : P a → keeps R P (emit a).
Proof. intros Ha c. split; [done|]. by repeat constructor. Qed.
Lemma keeps_modify f : (∀ c, R c (f c)) → keeps R P (modify f).
Proof. intros Hf c. split; [apply Hf|constructor]. Qed.
Lemma keeps_bind {A B} (m : M A) (k : A → M B) :
  keeps R P m → (∀ a, keeps R P (k a)) → keeps R P (m ≫= k).
Proof.
  intros Hm Hk c. rewrite final_bind, calls_bind.
  destruct (Hm c) as [Hf Hc]. destruct (m c) as [a c1 t1|e c1 t1]; simpl in *; [|done].
  destruct (Hk a c1) as [Hf' Hc']. split; [by etrans|]. by apply Forall_app.
Qed.
Lemma keeps_this_settings k : keeps R P (this_settings k).
Proof.
  apply keeps_bind; [apply keeps_gets|]. intros s. apply keeps_try.
Qed.
End keeps.

Lemma keeps_weaken {A} (R R' : relation client) (P Q : action → Prop) (m : M A) :
  (∀ c c', R c c' → R' c c') → (∀ a, P a → Q a) → keeps R P m → keeps R' Q m.
Proof.
  intros HR HPQ Hm c. destruct (Hm c) as [? Hc]. split; [by apply HR|].
  eapply Forall_impl; eauto.
Qed.

(** Goals [keeps R P m] for a method body [m], by the structure of [m]. *)
Ltac keeps :=
  repeat match goal with
  | |- PreOrder _ => apply _
  | |- keeps _ _ (mret _) => apply keeps_ret
  | |- keeps _ _ (throw _) => apply keeps_throw
  | |- keeps _ _ (gets _) => apply keeps_gets
  | |- keeps _ _ (try _) => apply keeps_try
  | |- keeps _ _ (this_settings _) => apply keeps_this_settings
  | |- keeps _ _ (emit _) => apply keeps_emit
  | |- keeps _ _ (modify _) => apply keeps_modify
  | |- keeps _ _ (_ ≫= _) => apply keeps_bind
  | |- ∀ _, _ => intros ?
  | |- keeps _ _ (if ?b then _ else _) => destruct b
  | |- keeps _ _ (match ?x with _ => _ end) => destruct x
  | |- _ => first [done | solve [auto] | by hnf]
  end.

(** *** Methods that assign no field *)

Lemma playSound_keeps soundName : keeps eq (λ a, side_effect a = true) (playSound soundName).
Proof. unfold playSound. keeps. Qed.
Lemma showNotification_keeps title alert :
  keeps eq (λ a, side_effect a = true) (showNotification title alert).
Proof. unfold showNotification. keeps. Qed.
Lemma renderAlerts_keeps : keeps eq (eq RenderAlerts) renderAlerts.
Proof. unfold renderAlerts. keeps. Qed.
Lemma updateStats_keeps : keeps eq (eq UpdateStats) updateStats.
Proof. unfold updateStats. keeps. Qed.
Lemma updateSoundDropdowns_keeps (R : relation client) `{!PreOrder R} (P : action → Prop) :
  keeps R P updateSoundDropdowns.
Proof. unfold updateSoundDropdowns. cbv zeta. keeps. Qed.
Lemma updateSoundsUI_keeps : keeps eq (eq UpdateSoundsUI) updateSoundsUI.
Proof.
  pose proof (updateSoundDropdowns_keeps eq (eq UpdateSoundsUI)).
  unfold updateSoundsUI. keeps.
Qed.

Lemma final_then {A B} P (m : M A) (k : A → M B) c :
  (∀ a, keeps eq P (k a)) → final ((m ≫= k) c) = final (m c).
Proof.
  intros Hk. rewrite final_bind. destruct (m c) as [a c1 t1|e c1 t1]; [|done].
  symmetry. apply Hk.
Qed.

(** What a call of a presentation method comes to: it returns or throws,
    on the client it was given. *)
Lemma keeps_eq_run (P : action → Prop) (m : M unit) c :
  keeps eq P m →
  ∃ t, Forall P t ∧ (m c = Ok tt c t ∨ ∃ e, m c = Err e c t).
Proof.
  intros Hm. destruct (Hm c) as [Hf Hc].
  destruct (m c) as [[] c1 t|e c1 t]; simpl in *; subst; eauto.
Qed.

(** *** The array after [addOrUpdateAlert] *)

Lemma set_alerts_id c : set_alerts (alerts c) c = c.
Proof. by destruct c. Qed.

Lemma refresh_only :
  keeps eq (λ a, a = RenderAlerts ∨ a = UpdateStats) (renderAlerts;; updateStats).
Proof.
  apply keeps_bind; [apply _| |intros _].
  - eapply keeps_weaken; [done| |apply renderAlerts_keeps]. by intros _ <-; left.
  - eapply keeps_weaken; [done| |apply updateStats_keeps]. by intros _ <-; right.
Qed.

Lemma refresh_keeps : keeps eq (λ a, side_effect a = false) (renderAlerts;; updateStats).
Proof. eapply keeps_weaken; [done| |apply refresh_only]. by intros a [-> | ->]. Qed.

Lemma effects_keeps title alert soundName :
  keeps eq (λ a, side_effect a = true) (playSound soundName;; showNotification title alert).
Proof.
  apply keeps_bind; [apply _| |intros _];
    auto using playSound_keeps, showNotification_keeps.
Qed.

Lemma addOrUpdateAlert_final alert c :
  final (addOrUpdateAlert alert c) =
  match alerts c with
  | JArr xs => set_alerts (JArr (reconcile alert xs)) c
  | _ => c
  end.
Proof.
  unfold addOrUpdateAlert.
  rewrite final_bind; simpl. rewrite final_bind.
  destruct (alerts c) as [| | | | |xs|] eqn:Hc; try done; simpl.
  unfold reconcile.
  destruct (findIndex (same_id alert) xs) as [[index|]|]; simpl.
  - rewrite (final_then (λ a, side_effect a = false)) by (intros; apply refresh_keeps).
    rewrite final_bind.
    destruct (get alert "status") as [status|]; simpl; [|by rewrite <-Hc, set_alerts_id].
    destruct (is_str status "resolved").
    + rewrite (final_then (λ a, side_effect a = true)).
      2:{ intros. apply keeps_bind; [apply _|keeps|intros; apply playSound_keeps]. }
      unfold alerts_splice. rewrite final_bind; simpl. by rewrite Hc.
    + unfold alerts_assign. rewrite final_bind; simpl. by rewrite Hc.
  - rewrite (final_then (λ a, side_effect a = false)) by (intros; apply refresh_keeps).
    rewrite final_bind.
    destruct (get alert "status") as [status|]; simpl; [|by rewrite <-Hc, set_alerts_id].
    destruct (is_str status "firing"); simpl; [|by rewrite <-Hc, set_alerts_id].
    rewrite (final_then (λ a, side_effect a = true)).
    2:{ intros. apply keeps_bind; [apply _|keeps|intros; apply effects_keeps]. }
    unfold alerts_push. rewrite final_bind; simpl. by rewrite Hc.
  - by rewrite <-Hc, set_alerts_id.
Qed.

(** *** Strict equality and distinct ids *)

Lemma strict_eq_true x y : strict_eq x y = true → x = y.
Proof.
  destruct x, y; simpl; try done.
  - by intros ->%Bool.eqb_prop.
  - by intros ->%Z.eqb_eq.
  - by intros ->%String.eqb_eq.
Qed.
Lemma strict_eq_sym x y : strict_eq x y = strict_eq y x.
Proof.
  destruct x, y; simpl; try done.
  - by destruct b, b0.
  - apply Z.eqb_sym.
  - apply String.eqb_sym.
Qed.

Lemma distinct_lookup ids i j x y :
  distinct ids → ids !! i = Some x → ids !! j = Some y →
  strict_eq x y = true → i = j.
Proof.
  revert i j. induction ids as [|z ids IH]; intros i j Hd Hi Hj Hxy; [done|].
  destruct Hd as [Hz Hd].
  destruct i as [|i], j as [|j]; simpl in *; simplify_eq; try done.
  - rewrite Forall_lookup in Hz. by rewrite (Hz _ _ Hj) in Hxy.
  - rewrite Forall_lookup in Hz. rewrite strict_eq_sym in Hxy. by rewrite (Hz _ _ Hi) in Hxy.
  - f_equal. eauto.
Qed.




(** what [findIndex] returns *)
Lemma findIndex_Some p xs i :
  findIndex p xs = Some (Some i) → ∃ x, xs !! i = Some x ∧ p x = Some true.
Proof.
  revert i. induction xs as [|x xs IH]; intros i; simpl; [done|].
  destruct (p x) as [[]|] eqn:Hp; [by intros [= <-]; exists x| |done].
  destruct (findIndex p xs) as [[j|]|]; intros [= <-]. by apply IH.
Qed.
Lemma findIndex_None p xs :
  findIndex p xs = Some None → Forall (λ x, p x = Some false) xs.
Proof.
  induction xs as [|x xs IH]; simpl; [by constructor|].
  destruct (p x) as [[]|] eqn:Hp; [done| |done].
  destruct (findIndex p xs) as [[j|]|]; intros [=]. constructor; auto.
Qed.

Lemma get_nullish a k : nullish a = false → is_Some (get a k).
Proof. destruct a; simpl; eauto; done. Qed.
Lemma get_Some_readable a k v : get a k = Some v → nullish a = false.
Proof. by destruct a. Qed.

Lemma same_id_Some alert a b :
  same_id alert a = Some b → b = strict_eq (id_of a) (id_of alert).
Proof.
  unfold same_id, id_of. destruct (get a "id"); simpl; [|done].
  destruct (get alert "id"); simpl; [|done]. by intros [= <-].
Qed.

(** *** The alert set is kept *)


Lemma findIndex_total p xs :
  Forall (λ x, is_Some (p x)) xs → is_Some (findIndex p xs).
Proof.
  induction 1 as [|x xs [b Hb] _ IH]; simpl; [by eexists|].
  rewrite Hb. destruct b; [by eexists|]. by destruct IH as [[j|] ->].
Qed.

Lemma reconcile_nullish alert xs : nullish alert = true → reconcile alert xs = xs.
Proof.
  intros Hn. unfold reconcile.
  assert (get alert "status" = None) as -> by by destruct alert.
  by destruct (findIndex _ _) as [[|]|].
Qed.






(** *** The calls of [addOrUpdateAlert] *)

Lemma calls_then {A B} P (m : M A) (k : A → M B) c :
  (∀ a, keeps eq P (k a)) →
  ∃ t, Forall P t ∧ calls ((m ≫= k) c) = calls (m c) ++ t.
Proof.
  intros Hk. rewrite calls_bind. destruct (m c) as [a c1 t1|e c1 t1]; simpl.
  - exists (calls (k a c1)). split; [apply Hk|done].
  - exists []. split; [constructor|]. by rewrite app_nil_r.
Qed.

Lemma playSound_calls soundName c :
  ∃ t, Forall background t ∧ calls (playSound soundName c) = PlaySound soundName :: t.
Proof.
  unfold playSound. rewrite calls_bind. simpl. eexists. split; [|done].
  match goal with |- Forall _ (calls (?m c)) => assert (keeps eq background m) as Hm end.
  { keeps. }
  apply Hm.
Qed.

Lemma showNotification_background title alert :
  keeps eq background (showNotification title alert).
Proof. unfold showNotification. keeps. Qed.

Lemma refresh_background : keeps eq background (renderAlerts;; updateStats).
Proof. eapply keeps_weaken; [done| |apply refresh_only]. by intros a [-> | ->]. Qed.

Lemma alerts_splice_run index c xs :
  alerts c = JArr xs →
  alerts_splice index c = Ok tt (set_alerts (JArr (delete index xs)) c) [AlertsSplice index].
Proof. intros Hc. unfold alerts_splice, mbind, M_bind, gets. by rewrite Hc. Qed.
Lemma alerts_assign_run index alert c xs :
  alerts c = JArr xs →
  alerts_assign index alert c =
  Ok tt (set_alerts (JArr (<[index := alert]> xs)) c) [AlertsAssign index alert].
Proof. intros Hc. unfold alerts_assign, mbind, M_bind, gets. by rewrite Hc. Qed.
Lemma alerts_push_run alert c xs :
  alerts c = JArr xs →
  alerts_push alert c = Ok tt (set_alerts (JArr (xs ++ [alert])) c) [AlertsPush alert].
Proof. intros Hc. unfold alerts_push, mbind, M_bind, gets. by rewrite Hc. Qed.

Lemma setting_set_alerts k v c : setting k (set_alerts v c) = setting k c.
Proof. reflexivity. Qed.

Lemma this_settings_run k c :
  this_settings k c =
  if settings_readable c then Ok (setting k c) c [] else Err TypeError c [].
Proof.
  unfold this_settings, settings_readable, setting, mbind, M_bind, gets. cbn.
  destruct (settings c) as [o|v]; [done|]. by destruct v.
Qed.

Lemma read_setting c k : settings_readable c = true → read (settings c) k = Some (setting k c).
Proof.
  unfold settings_readable, setting. destruct (settings c) as [o|v]; [done|]. by destruct v.
Qed.

Lemma truthy_setting c k : truthy (setting k c) = true → settings_readable c = true.
Proof.
  unfold settings_readable, setting. destruct (settings c) as [o|v]; [done|]. by destruct v.
Qed.

Lemma play_setting_calls {B} k (body : jsval → M B) c :
  (∀ s, ∃ t, Forall background t ∧ calls (body s c) = PlaySound s :: t) →
  ∃ t, Forall background t ∧ calls ((this_settings k ≫= body) c) = played k c ++ t.
Proof.
  intros Hbody. unfold played. rewrite calls_bind, this_settings_run.
  destruct (settings_readable c); cbn; [apply Hbody|]. by exists [].
Qed.

Lemma addOrUpdateAlert_calls alert c xs :
  alerts c = JArr xs →
  ∃ t, Forall background t ∧
    calls (addOrUpdateAlert alert c) =
    match findIndex (same_id alert) xs, get alert "status" with
    | Some (Some index), Some status =>
        if is_str status "resolved"
        then AlertsSplice index :: played "resolvedSound" c ++ t
        else AlertsAssign index alert :: t
    | Some None, Some status =>
        if is_str status "firing"
        then AlertsPush alert :: played "alertSound" c ++ t
        else t
    | _, _ => t
    end.
Proof.
  intros Hc. unfold addOrUpdateAlert.
  rewrite calls_bind; simpl. rewrite calls_bind, Hc; simpl.
  destruct (findIndex (same_id alert) xs) as [[index|]|]; simpl;
    [| |by exists []; split; [constructor|destruct (get alert "status")]].
  - match goal with |- context [calls ((?m ≫= ?k) c)] =>
      destruct (calls_then background m k c) as (t & Ht & ->);
        [intros; apply refresh_background|]
    end.
    rewrite calls_bind.
    destruct (get alert "status") as [status|]; simpl; [|by exists t].
    destruct (is_str status "resolved").
    + rewrite calls_bind, (alerts_splice_run _ _ _ Hc); simpl.
      edestruct (play_setting_calls "resolvedSound" playSound) as (t' & Ht' & ->);
        [intros s; apply playSound_calls|].
      exists (t' ++ t). split; [by apply Forall_app|].
      by rewrite <-app_assoc.
    + rewrite (alerts_assign_run _ _ _ _ Hc); simpl. by exists t.
  - match goal with |- context [calls ((?m ≫= ?k) c)] =>
      destruct (calls_then background m k c) as (t & Ht & ->);
        [intros; apply refresh_background|]
    end.
    rewrite calls_bind.
    destruct (get alert "status") as [status|]; simpl; [|by exists t].
    destruct (is_str status "firing"); simpl; [|by exists t].
    rewrite calls_bind, (alerts_push_run _ _ _ Hc); simpl.
    edestruct (play_setting_calls "alertSound"
                 (λ s, playSound s;; showNotification "Новый алерт" alert)) as (t' & Ht' & ->).
    { intros s.
      match goal with |- context [calls ((?m ≫= ?k) ?c')] =>
        destruct (calls_then background m k c') as (t2 & Ht2 & ->);
          [intros; apply showNotification_background|]
      end.
      edestruct playSound_calls as (t' & Ht' & ->).
      exists (t' ++ t2). split; [by apply Forall_app|done]. }
    exists (t' ++ t). split; [by apply Forall_app|].
    by rewrite <-app_assoc.
Qed.

Lemma transitions_background t : Forall background t → transitions t = [].
Proof.
  induction 1 as [|a t [Ha _] _ IH]; [done|]. unfold transitions in *. simpl. by rewrite Ha.
Qed.
Lemma sounds_background t : Forall background t → sounds_triggered t = [].
Proof.
  induction 1 as [|a t [_ Ha] _ IH]; [done|]. unfold sounds_triggered in *. simpl. by rewrite Ha.
Qed.

(** *** Presentation methods on a well-formed alert array *)

Lemma silent_calls {A} (m : M A) c : keeps eq (λ _, False) m → calls (m c) = [].
Proof.
  intros Hm. destruct (Hm c) as [_ Hc]. destruct (calls (m c)); [done|].
  by apply Forall_cons in Hc as [[] _].
Qed.

Lemma renderAlerts_calls c : calls (renderAlerts c) = [RenderAlerts].
Proof.
  unfold renderAlerts. rewrite calls_bind. simpl. f_equal.
  apply silent_calls. keeps.
Qed.

Lemma filter_readable p xs :
  Forall (λ a, nullish a = false ∧ is_Some (p a)) xs →
  ∃ ys, filter p xs = Some ys ∧ Forall (λ a, nullish a = false) ys.
Proof.
  induction 1 as [|x xs [Hx [b Hb]] _ (ys & Hys & IH)]; simpl; [by exists []|].
  rewrite Hb, Hys. destruct b; eexists; split; try done. by constructor.
Qed.

(** the callbacks [a => a.severity === ...] return on every readable entry *)
Ltac filter_returns xs Hxs ys Hys :=
  match goal with
  | |- context [filter ?p xs] =>
      let H := fresh in
      assert (Forall (λ a, nullish a = false ∧ is_Some (p a)) xs) as H;
      [ eapply Forall_impl; [exact Hxs|]; cbn; intros ? Ha; split; [done|];
        let sev := fresh in
        destruct (get_nullish _ "severity" Ha) as [sev ->]; by eexists
      | destruct (filter_readable p xs H) as (ys & -> & Hys); clear H ]
  end.

Lemma displayable_readable a : displayable a → nullish a = false.
Proof. intros Hu. by destruct a. Qed.

Lemma filter_sublist p xs ys (P : jsval → Prop) :
  filter p xs = Some ys → Forall P xs → Forall P ys.
Proof.
  revert ys. induction xs as [|x xs IH]; intros ys; simpl; [by intros [= <-]|].
  destruct (p x) as [keep|]; [|done]. destruct (filter p xs) as [zs|]; [|done].
  intros [= <-] [Hx Hxs]%Forall_cons. destruct keep; [constructor|]; auto.
Qed.

Lemma rows_total xs : Forall displayable xs → is_Some (mapM row xs).
Proof.
  intros H. apply mapM_is_Some. eapply Forall_impl; [exact H|]. intros a Ha. by exists tt.
Qed.

Lemma renderAlerts_ok c xs :
  alerts c = JArr xs → Forall displayable xs →
  renderAlerts c = Ok tt c [RenderAlerts].
Proof.
  intros Hc Hrows.
  assert (Forall (λ a, nullish a = false) xs) as Hxs.
  { eapply Forall_impl; [exact Hrows|]. apply displayable_readable. }
  unfold renderAlerts, mbind, M_bind, gets, emit. rewrite Hc.
  destruct (String.eqb (severity_filter c) "all"); cbn [negb].
  - cbn. destruct (Z.of_nat (length xs) =? 0)%Z; [done|].
    by destruct (rows_total xs Hrows) as [rows ->].
  - match goal with |- context [filter ?p xs] => destruct (filter p xs) as [ys|] eqn:Hfilter end.
    + pose proof (filter_sublist _ _ _ _ Hfilter Hrows) as Hys.
      cbn. destruct (Z.of_nat (length ys) =? 0)%Z; [done|].
      by destruct (rows_total ys Hys) as [rows ->].
    + exfalso. revert Hfilter. filter_returns xs Hxs ys Hys. done.
Qed.

Lemma updateStats_ok c xs :
  alerts c = JArr xs → Forall (λ a, nullish a = false) xs →
  updateStats c = Ok tt c [UpdateStats].
Proof.
  intros Hc Hxs. unfold updateStats, mbind, M_bind, gets, emit. rewrite Hc. cbn.
  by filter_returns xs Hxs ys Hys.
Qed.

Lemma findIndex_absent alert xs :
  readable xs → nullish alert = false → absent (id_of alert) xs →
  findIndex (same_id alert) xs = Some None.
Proof.
  intros Hxs Hn Habs. destruct (get_nullish alert "id" Hn) as [aid Haid].
  induction xs as [|x xs IH]; [done|].
  apply Forall_cons in Hxs as [Hx Hxs]. apply Forall_cons in Habs as [Hxa Habs].
  simpl. unfold same_id at 1. destruct (get_nullish x "id" Hx) as [xid Hxid].
  unfold id_of in Hxa. rewrite Hxid, Haid in *. simpl in *. rewrite Hxa.
  by rewrite IH.
Qed.

Lemma findIndex_present alert xs i old :
  readable xs → distinct (id_of <$> xs) → nullish alert = false →
  xs !! i = Some old → strict_eq (id_of old) (id_of alert) = true →
  findIndex (same_id alert) xs = Some (Some i).
Proof.
  intros Hxs Hd Hn Hi Hid. destruct (get_nullish alert "id" Hn) as [aid Haid].
  assert (is_Some (findIndex (same_id alert) xs)) as [r Hfind].
  { apply findIndex_total. eapply Forall_impl; [exact Hxs|]. simpl. intros a Ha.
    unfold same_id. destruct (get_nullish a "id" Ha) as [x ->]. rewrite Haid. by eexists. }
  rewrite Hfind. destruct r as [j|].
  - apply findIndex_Some in Hfind as (x & Hx & Hp). apply same_id_Some in Hp.
    symmetry in Hp. pose proof (strict_eq_true _ _ Hp) as Hxa.
    pose proof (strict_eq_true _ _ Hid) as Hoa.
    do 2 f_equal. eapply (distinct_lookup _ j i); [exact Hd| | |].
    + by rewrite list_lookup_fmap, Hx.
    + by rewrite list_lookup_fmap, Hi.
    + by rewrite Hxa, strict_eq_sym.
  - apply findIndex_None in Hfind. rewrite Forall_lookup in Hfind.
    apply Hfind in Hi. apply same_id_Some in Hi. congruence.
Qed.



(** *** The transport channel *)

#[global] Instance agree_on_preorder {A} (proj : client → A) : PreOrder (agree_on proj).
Proof. split; repeat intro; hnf in *; congruence. Qed.

Lemma keeps_eq_agree {A B} (proj : client → A) (P Q : action → Prop) (m : M B) :
  (∀ a, P a → Q a) → keeps eq P m → keeps (agree_on proj) Q m.
Proof. intros HPQ. apply keeps_weaken; [|done]. by intros c c' <-. Qed.

Lemma side_effect_no_reconnect a : side_effect a = true → no_reconnect a.
Proof. by destruct a. Qed.

Lemma addOrUpdateAlert_channel alert :
  keeps (agree_on channel) no_reconnect (addOrUpdateAlert alert).
Proof.
  unfold addOrUpdateAlert, alerts_splice, alerts_assign, alerts_push.
  assert (keeps (agree_on channel) no_reconnect renderAlerts).
  { eapply keeps_eq_agree; [|apply renderAlerts_keeps]. by intros _ <-. }
  assert (keeps (agree_on channel) no_reconnect updateStats).
  { eapply keeps_eq_agree; [|apply updateStats_keeps]. by intros _ <-. }
  assert (∀ s, keeps (agree_on channel) no_reconnect (playSound s)).
  { intros s. eapply keeps_eq_agree; [|apply playSound_keeps]. apply side_effect_no_reconnect. }
  assert (∀ s a, keeps (agree_on channel) no_reconnect (showNotification s a)).
  { intros s a. eapply keeps_eq_agree; [|apply showNotification_keeps].
    apply side_effect_no_reconnect. }
  keeps.
Qed.

Lemma onmessage_channel f : keeps (agree_on channel) no_reconnect (onmessage f).
Proof.
  unfold onmessage, JSON_parse, handleMessage, updateConnectionUI.
  pose proof addOrUpdateAlert_channel.
  assert (keeps (agree_on channel) no_reconnect renderAlerts).
  { eapply keeps_eq_agree; [|apply renderAlerts_keeps]. by intros _ <-. }
  assert (keeps (agree_on channel) no_reconnect updateSoundsUI).
  { eapply keeps_eq_agree; [|apply updateSoundsUI_keeps]. by intros _ <-. }
  keeps.
Qed.

Lemma onclose_run c :
  onclose c =
  let c1 := set_bridgeConnected (JBool false) (set_connected false c) in
  if (reconnectAttempts c <? maxReconnectAttempts)%Z then
    Ok tt (set_timers (S (timers c)) (set_reconnectAttempts (reconnectAttempts c + 1)%Z c1))
      [ConsoleLog "WebSocket disconnected" []; UpdateConnectionUI; SetTimeout reconnectDelay]
  else
    Ok tt c1 [ConsoleLog "WebSocket disconnected" []; UpdateConnectionUI].
Proof.
  unfold onclose, setTimeout, updateConnectionUI, mbind, M_bind, gets, modify, emit. cbn.
  by destruct (reconnectAttempts c <? maxReconnectAttempts)%Z.
Qed.

Lemma sendMessage_keeps message : keeps eq no_reconnect (sendMessage message).
Proof. unfold sendMessage. keeps. Qed.

Lemma onopen_run c :
  ∃ t, Forall no_reconnect t ∧ onopen c = Ok tt (set_connected true c) t.
Proof.
  unfold onopen, updateConnectionUI.
  destruct (keeps_eq_run no_reconnect
              (sendMessage (JObj [("type", JStr "get_alerts")]);;
               sendMessage (JObj [("type", JStr "get_sounds")]))
              (set_connected true c)) as (t & Ht & Hrun).
  { apply keeps_bind; [apply _|apply sendMessage_keeps|intros; apply sendMessage_keeps]. }
  assert (∀ m c', thrown (sendMessage m c') = None) as Hsend.
  { intros m c'. unfold sendMessage, mbind, M_bind, gets. cbn.
    destruct (ws c') as [k|]; [|done]. by destruct (sockets c' !! k) as [[]|]. }
  destruct Hrun as [Hrun|[e Hrun]].
  - exists (ConsoleLog "WebSocket connected" [] :: UpdateConnectionUI :: t).
    split; [by repeat constructor|].
    unfold mbind at 1 2 3, M_bind at 1 2 3, emit, modify. cbn. by rewrite Hrun.
  - exfalso. apply (f_equal thrown) in Hrun. rewrite thrown_bind in Hrun.
    destruct (keeps_eq_run no_reconnect (sendMessage (JObj [("type", JStr "get_alerts")]))
                (set_connected true c) (sendMessage_keeps _)) as (t1 & _ & [H1|[e1 H1]]).
    + rewrite H1 in Hrun. by rewrite Hsend in Hrun.
    + apply (f_equal thrown) in H1. by rewrite Hsend in H1.
Qed.

Lemma connectWebSocket_run c :
  connectWebSocket c =
  Ok tt (set_ws (Some (length (sockets c))) (set_sockets (sockets c ++ [CONNECTING]) c))
    [NewWebSocket (length (sockets c))].
Proof. reflexivity. Qed.

(** What one event that is not a click does to the retry counter, the
    connected flag and the timers. *)
Lemma deliver_automatic ev c :
  is_click ev = false →
  let r := deliver ev c in
  let retry := is_close ev && (reconnectAttempts c <? maxReconnectAttempts)%Z in
  reconnectAttempts (final r) =
    (if retry then reconnectAttempts c + 1 else reconnectAttempts c)%Z ∧
  scheduled (calls r) = (if retry then 1 else 0)%nat ∧
  connected (final r) =
    (if is_close ev then false else if is_open ev then true else connected c) ∧
  (enabled c ev = true →
   (created (calls r) + timers (final r) = timers c + scheduled (calls r))%nat).
Proof.
  intros Hev. destruct ev as [k|k|k|k f| |]; try done; unfold deliver, handler; cbn [is_close is_open andb].
  - destruct (onopen_run (browser (SocketOpen k) c)) as (t & Ht & ->).
    assert (scheduled t = 0%nat ∧ created t = 0%nat) as [Hs Hc].
    { clear -Ht. unfold scheduled, created.
      induction Ht as [|a t [Ha1 Ha2] _ [IH1 IH2]]; [done|]. simpl. by rewrite Ha1, Ha2. }
    cbn. rewrite Hs, Hc. repeat split; first [done | lia].
  - rewrite onclose_run. cbn.
    destruct (reconnectAttempts c <? maxReconnectAttempts)%Z; cbn; repeat split;
      unfold scheduled, created; cbn; first [done | lia].
  - destruct (onmessage_channel f c) as [Hch Hcalls].
    assert (scheduled (calls (onmessage f c)) = 0%nat ∧
            created (calls (onmessage f c)) = 0%nat) as [Hs Hc].
    { unfold scheduled, created.
      induction Hcalls as [|a t [Ha1 Ha2] _ [IH1 IH2]]; [done|]. simpl. by rewrite Ha1, Ha2. }
    unfold agree_on, channel in Hch. cbn [browser]. rewrite Hs, Hc.
    injection Hch as _ Hcon Hn _ Htm. rewrite <-Hcon, <-Hn, <-Htm. repeat split; first [done | lia].
  - rewrite connectWebSocket_run. cbn. repeat split; try done.
    intros Hen%negb_true_iff%Nat.eqb_neq. unfold scheduled, created; cbn. lia.
Qed.

Lemma run_cons ev rest c :
  run (ev :: rest) c =
  ((run rest (final (deliver ev c))).1, calls (deliver ev c) ++ (run rest (final (deliver ev c))).2).
Proof. simpl. by destruct (run rest _). Qed.

Lemma scheduled_app t1 t2 : scheduled (t1 ++ t2) = (scheduled t1 + scheduled t2)%nat.
Proof. unfold scheduled. by rewrite List.filter_app, length_app. Qed.
Lemma created_app t1 t2 : created (t1 ++ t2) = (created t1 + created t2)%nat.
Proof. unfold created. by rewrite List.filter_app, length_app. Qed.

Lemma closures_cons ev rest :
  closures (ev :: rest) = ((if is_close ev then 1 else 0) + closures rest)%nat.
Proof. unfold closures. simpl. by destruct (is_close ev). Qed.

(** A run without clicks: the counter grows by one per closure up to the
    maximum, one timer is scheduled per increment, and each socket created
    uses up a pending timer. *)
Lemma run_automatic evs c :
  Forall (λ ev, is_click ev = false) evs →
  (0 ≤ reconnectAttempts c ≤ maxReconnectAttempts)%Z →
  let c' := (run evs c).1 in
  let t := (run evs c).2 in
  reconnectAttempts c' =
    Z.min maxReconnectAttempts (reconnectAttempts c + Z.of_nat (closures evs)) ∧
  Z.of_nat (scheduled t) = (reconnectAttempts c' - reconnectAttempts c)%Z ∧
  (possible evs c = true → (created t + timers c' = timers c + scheduled t)%nat) ∧
  (Forall (λ ev, is_open ev = false) evs →
   connected c' = if decide (closures evs = 0%nat) then connected c else false).
Proof.
  intros Hevs. revert c. induction Hevs as [|ev rest Hev _ IH]; intros c Hn.
  { cbn. unfold scheduled, maxReconnectAttempts in *. cbn. repeat split; try done; lia. }
  rewrite run_cons. cbn [fst snd]. cbn zeta.
  destruct (deliver_automatic ev c Hev) as (Hn1 & Hs1 & Hc1 & Ht1).
  set (c1 := final (deliver ev c)) in *. set (t1 := calls (deliver ev c)) in *.
  assert (0 ≤ reconnectAttempts c1 ≤ maxReconnectAttempts)%Z as Hn1'.
  { rewrite Hn1. unfold maxReconnectAttempts in *.
    destruct (is_close ev); cbn [andb]; [|lia].
    destruct (Z.ltb_spec (reconnectAttempts c) 5); lia. }
  destruct (IH c1 Hn1') as (IHn & IHs & IHt & IHc). clear IH.
  rewrite scheduled_app, created_app, closures_cons.
  assert (Z.of_nat (scheduled t1) = reconnectAttempts c1 - reconnectAttempts c)%Z as Hs1'.
  { rewrite Hs1, Hn1. destruct (_ && _); lia. }
  split; [|split; [|split]].
  - rewrite IHn, Hn1. unfold maxReconnectAttempts in *.
    destruct (is_close ev); cbn [andb]; [|f_equal; lia].
    destruct (Z.ltb_spec (reconnectAttempts c) 5); lia.
  - lia.
  - cbn [possible]. intros [Hen Hposs]%andb_true_iff.
    specialize (Ht1 Hen). specialize (IHt Hposs). lia.
  - intros [Hop Hops]%Forall_cons. rewrite (IHc Hops), Hc1, Hop.
    destruct (is_close ev); repeat case_decide; try done; lia.
Qed.

(** Once the counter is at its maximum, no timer is pending and no socket
    is connecting, nothing the browser can deliver reconnects the client. *)
Lemma deliver_quiet ev c :
  is_click ev = false → enabled c ev = true →
  timers c = 0%nat → Forall (λ s, s ≠ CONNECTING) (sockets c) →
  (maxReconnectAttempts ≤ reconnectAttempts c)%Z → connected c = false →
  let r := deliver ev c in
  timers (final r) = 0%nat ∧ Forall (λ s, s ≠ CONNECTING) (sockets (final r)) ∧
  reconnectAttempts (final r) = reconnectAttempts c ∧ connected (final r) = false ∧
  created (calls r) = 0%nat.
Proof.
  intros Hev Hen Htm Hsock Hn Hcon.
  destruct ev as [k|k|k|k f| |]; try done; unfold deliver; cbn [handler browser].
  - cbn in Hen. destruct (sockets c !! k) as [[]|] eqn:Hk; try done.
    rewrite Forall_lookup in Hsock. by destruct (Hsock _ _ Hk).
  - rewrite onclose_run. cbn -[maxReconnectAttempts].
    assert ((reconnectAttempts c <? maxReconnectAttempts)%Z = false) as -> by lia.
    unfold created. cbn. repeat split; try done. by apply Forall_insert.
  - destruct (onmessage_channel f c) as [Hch Hcalls].
    unfold agree_on, channel in Hch. injection Hch as _ Hc Hr Hs Ht.
    rewrite <-Hc, <-Hr, <-Hs, <-Ht. repeat split; try done.
    unfold created. clear -Hcalls.
    induction Hcalls as [|a t [_ Ha] _ IH]; [done|]. simpl. by rewrite Ha.
  - cbn in Hen. by rewrite Htm in Hen.
Qed.

Lemma run_quiet more c :
  Forall (λ ev, is_click ev = false) more → possible more c = true →
  timers c = 0%nat → Forall (λ s, s ≠ CONNECTING) (sockets c) →
  (maxReconnectAttempts ≤ reconnectAttempts c)%Z → connected c = false →
  connected (run more c).1 = false ∧ created (run more c).2 = 0%nat.
Proof.
  intros Hmore. revert c. induction Hmore as [|ev rest Hev _ IH]; intros c Hposs Htm Hsock Hn Hcon.
  { by split. }
  cbn [possible] in Hposs. apply andb_true_iff in Hposs as [Hen Hposs].
  destruct (deliver_quiet ev c Hev Hen Htm Hsock Hn Hcon) as (Htm' & Hsock' & Hn' & Hcon' & Hcr).
  rewrite run_cons. cbn [fst snd]. rewrite created_app, Hcr.
  apply IH; try done. lia.
Qed.

(** *** Property names *)

(** an index, printed, starts with a digit *)
Lemma pretty_N_go_head x s :
  (0 < x)%N →
  ∃ d rest, pretty_N_go x s = String d rest ∧ (48 ≤ nat_of_ascii d ≤ 57)%nat.
Proof.
  revert s. induction (N.lt_wf_0 x) as [x _ IH]; intros s Hx.
  rewrite pretty_N_go_step by done.
  destruct (decide (x `div` 10 = 0)%N) as [Hdiv|Hdiv].
  - rewrite Hdiv, pretty_N_go_0. eexists _, _. split; [done|].
    assert (x `mod` 10 < 10)%N as Hmod by (apply N.mod_lt; lia).
    revert Hmod. generalize (x `mod` 10)%N. intros y Hy.
    assert (y = 0 ∨ y = 1 ∨ y = 2 ∨ y = 3 ∨ y = 4 ∨ y = 5 ∨ y = 6 ∨ y = 7 ∨
            y = 8 ∨ y = 9)%N as H by lia.
    destruct H as [->|[->|[->|[->|[->|[->|[->|[->|[->| ->]]]]]]]]]; compute; lia.
  - apply IH; [by apply N.div_lt|by apply N.neq_0_lt_0].
Qed.

Lemma pretty_nat_head (i : nat) :
  ∃ d rest, pretty i = String d rest ∧ (48 ≤ nat_of_ascii d ≤ 57)%nat.
Proof.
  change (pretty i) with (pretty (N.of_nat i)). generalize (N.of_nat i). intros x.
  unfold pretty, pretty_N. destruct (decide (x = 0%N)) as [->|Hx].
  - eexists _, _. split; [done|]. compute. lia.
  - apply pretty_N_go_head. by apply N.neq_0_lt_0.
Qed.

Lemma named_not_index k (i : nat) : named k → pretty i ≠ k.
Proof.
  intros Hk Heq. destruct (pretty_nat_head i) as (d & rest & Hp & Hd).
  rewrite Hp in Heq. subst k. by apply Hk.
Qed.

Lemma lookup_indexed {A} (f : A → jsval) (xs : list A) k :
  named k → (list_to_map (imap (λ i x, (pretty i, f x)) xs) : gmap string jsval) !! k = None.
Proof.
  intros Hk. apply not_elem_of_list_to_map_1. intros Hin.
  apply list_elem_of_fmap in Hin as ([k' v] & -> & Hin).
  apply list_elem_of_lookup in Hin as [i Hi]. rewrite list_lookup_imap in Hi.
  destruct (xs !! i); [|done]. cbn in Hi. simplify_eq. by eapply named_not_index.
Qed.

Lemma lookup_assoc k fields :
  default JUndefined ((list_to_map fields : gmap string jsval) !! k) = assoc k fields.
Proof.
  induction fields as [|[k' v] fields IH]; [done|]. cbn.
  destruct (String.eqb_spec k k') as [->|Hne].
  - by rewrite lookup_insert_eq.
  - by rewrite lookup_insert_ne.
Qed.

(** a name that is neither an index nor [length] is read from a value as
    from its own properties *)
Lemma fields_of_read s k :
  named k → k ≠ "length" →
  default JUndefined (fields_of s !! k) = default JUndefined (read s k).
Proof.
  intros Hk Hlen. destruct s as [o|v]; [done|]. cbn [fields_of read].
  assert (String.eqb k "length" = false) as Hne by by apply String.eqb_neq.
  destruct v as [| |b|n|str|xs|fields]; cbn [own_properties get]; rewrite ?Hne; try done.
  - by rewrite lookup_indexed.
  - by rewrite (lookup_indexed id).
  - by rewrite lookup_assoc.
Qed.

Lemma setting_set_server_url k u c : setting k (set_server_url u c) = setting k c.
Proof. reflexivity. Qed.

Lemma setting_overlay k (m : gmap string jsval) s c :
  setting k (set_settings (Fields (m ∪ fields_of s)) c) =
  match m !! k with Some v => v | None => default JUndefined (fields_of s !! k) end.
Proof.
  unfold setting. cbn [settings set_settings read]. rewrite lookup_union.
  by destruct (m !! k), (fields_of s !! k).
Qed.

(** *** Settings *)

Lemma newSettings_bridgeServerUrl f :
  newSettings f !! "bridgeServerUrl" = Some (JStr (bridge_url_input f)).
Proof. reflexivity. Qed.

Lemma set_server_url_id c : set_server_url (server_url c) c = c.
Proof. by destruct c. Qed.

Lemma saveSettings_success f data success c :
  get data "success" = Some success → truthy success = true →
  saveSettings f (Body data) c =
    Ok tt (set_server_url (bridge_url_input f)
             (set_settings (Fields (newSettings f ∪ fields_of (settings c))) c))
      [Fetch "POST" "/api/settings/update/" (newSettings f);
       ShowSnackbar "Настройки сохранены" false; CloseSettings].
Proof.
  intros Hdata Hsuccess.
  unfold saveSettings, showSnackbar, closeSettings, this_settings,
    mbind, M_bind, emit, gets, modify.
  cbn -[newSettings spread]. rewrite Hdata. cbn -[newSettings spread].
  rewrite Hsuccess. cbn -[newSettings spread]. unfold spread.
  rewrite (lookup_union_Some_l _ _ _ _ (newSettings_bridgeServerUrl f)).
  cbn -[newSettings]. destruct (String.eqb_spec (bridge_url_input f) (server_url c)) as [Heq|Hne].
  - cbn -[newSettings]. do 2 f_equal. rewrite Heq.
    by rewrite <-(set_server_url_id (set_settings _ c)) at 1.
  - done.
Qed.

Lemma saveSettings_refused f data success c :
  get data "success" = Some success → truthy success = false →
  saveSettings f (Body data) c =
    Ok tt c [Fetch "POST" "/api/settings/update/" (newSettings f);
             ShowSnackbar "Ошибка сохранения" true].
Proof.
  intros Hdata Hsuccess.
  unfold saveSettings, showSnackbar, mbind, M_bind, emit.
  cbn -[newSettings spread]. rewrite Hdata. cbn -[newSettings spread].
  by rewrite Hsuccess.
Qed.

Lemma saveSettings_failure f r c :
  accepted r = false →
  final (saveSettings f r c) = c ∧
  Forall (λ a, a = Fetch "POST" "/api/settings/update/" (newSettings f) ∨
               a = ShowSnackbar "Ошибка сохранения" true)
    (calls (saveSettings f r c)).
Proof.
  intros Hr.
  unfold saveSettings, showSnackbar, closeSettings, mbind, M_bind, emit, gets, modify.
  destruct r as [| |data]; [by repeat constructor; left..|]. cbn -[newSettings spread setting].
  unfold accepted in Hr.
  destruct (get data "success") as [success|]; [|by repeat constructor; left].
  cbn -[newSettings spread setting]. rewrite Hr.
  split; [done|]. repeat constructor; first [by left|by right].
Qed.

Lemma toggleConnection_close c k :
  connected c = true → ws c = Some k → sockets c !! k = Some OPEN →
  toggleConnection c = Ok tt (set_sockets (<[k := CLOSING]> (sockets c)) c) [WsClose k].
Proof.
  intros Hcon Hws Hk. unfold toggleConnection, ws_close, mbind, M_bind, gets, modify, emit.
  rewrite Hcon, Hws. cbn. by rewrite Hk.
Qed.

(** *** Snapshots *)

Lemma handleMessage_alerts_list c data payload :
  get data "type" = Some (JStr "alerts_list") →
  get data "alerts" = Some payload →
  final (handleMessage data c) = set_alerts payload c ∧
  calls (handleMessage data c) = [RenderAlerts].
Proof.
  intros Htype Hpayload. unfold handleMessage.
  rewrite final_bind, calls_bind, Htype. cbn.
  rewrite final_bind, calls_bind, Hpayload. cbn.
  rewrite final_bind, calls_bind. cbn.
  rewrite renderAlerts_calls. split; [|done].
  symmetry. apply renderAlerts_keeps.
Qed.

(** *** The retry counter stays between 0 and the maximum in every run *)

Lemma deliver_click_counter c :
  reconnectAttempts (final (deliver ClickConnect c)) =
  if connected c then reconnectAttempts c else 0.
Proof.
  unfold deliver. cbn [handler browser]. unfold toggleConnection.
  rewrite final_bind. cbn. destruct (connected c); [|done].
  unfold ws_close, mbind, M_bind, gets, modify, emit. cbn.
  destruct (ws c) as [k|]; [|done]. cbn. by destruct (sockets c !! k) as [[]|].
Qed.

Lemma counter_in_range evs c :
  (0 ≤ reconnectAttempts c ≤ maxReconnectAttempts)%Z →
  (0 ≤ reconnectAttempts (run evs c).1 ≤ maxReconnectAttempts)%Z.
Proof.
  revert c. induction evs as [|ev rest IH]; intros c Hn; [done|].
  rewrite run_cons. cbn [fst]. apply IH. unfold maxReconnectAttempts in *.
  destruct (is_click ev) eqn:Hev.
  - destruct ev; try done. rewrite deliver_click_counter. destruct (connected c); lia.
  - destruct (deliver_automatic ev c Hev) as (-> & _). unfold maxReconnectAttempts.
    destruct (is_close ev); cbn [andb]; [|lia].
    destruct (Z.ltb_spec (reconnectAttempts c) 5); lia.
Qed.

Lemma counter_starts_at_zero url flt storage perm :
  reconnectAttempts (final (constructor (fresh url flt storage perm))) = 0.
Proof.
  unfold constructor. rewrite final_bind. unfold loadSettings, mbind, M_bind, gets. cbn.
  by destruct (storage !! "alertbridge-settings") as [[]|].
Qed.

(** ** The properties of the specification *)



(** C2, as the code has it.  For an id [X] that is a primitive value (a
    string, a number, a boolean, [null], a missing id: a value that is [===]
    to itself) and a client whose settings can be read, the call with
    [{id: X, status: 'firing'}] on the empty set followed by the call with
    [{id: X, status: 'resolved'}] leaves the empty set.  The first call makes
    exactly one transition, Arrived, and calls [playSound] once, with the
    configured alert sound; the second makes exactly one transition,
    Resolved, no Arrived, and calls [playSound] once, with the configured
    resolved sound. *)
Theorem firing_then_resolved (c : client) (X firing resolved : jsval) :
  alerts c = JArr [] →
  settings_readable c = true →
  strict_eq X X = true →
  get firing "id" = Some X → get firing "status" = Some (JStr "firing") →
  get resolved "id" = Some X → get resolved "status" = Some (JStr "resolved") →
  let r1 := addOrUpdateAlert firing c in
  let r2 := addOrUpdateAlert resolved (final r1) in
  alerts (final r1) = JArr [firing] ∧
  alerts (final r2) = JArr [] ∧
  transitions (calls r1) = [Arrived firing] ∧
  sounds_triggered (calls r1) = [setting "alertSound" c] ∧
  transitions (calls r2) = [Resolved 0] ∧
  sounds_triggered (calls r2) = [setting "resolvedSound" c].
Proof.
  intros Hc Hread HX Hid1 Hst1 Hid2 Hst2 r1 r2.
  assert (final r1 = set_alerts (JArr [firing]) c) as Hr1.
  { unfold r1. rewrite addOrUpdateAlert_final, Hc. unfold reconcile. by rewrite Hst1. }
  assert (findIndex (same_id resolved) [firing] = Some (Some 0%nat)) as Hfind.
  { unfold findIndex, same_id. rewrite Hid1, Hid2. simpl. by rewrite HX. }
  assert (final r2 = set_alerts (JArr []) c) as Hr2.
  { unfold r2. rewrite addOrUpdateAlert_final, Hr1. simpl.
    unfold reconcile. by rewrite Hfind, Hst2. }
  destruct (addOrUpdateAlert_calls firing c [] Hc) as (t1 & Ht1 & Hc1).
  destruct (addOrUpdateAlert_calls resolved (final r1) [firing]) as (t2 & Ht2 & Hc2);
    [by rewrite Hr1|].
  assert (∀ k v, played k (set_alerts v c) = [PlaySound (setting k c)]) as Hplayed.
  { intros k v. unfold played.
    change (settings_readable (set_alerts v c)) with (settings_readable c).
    by rewrite Hread. }
  assert (played "alertSound" c = [PlaySound (setting "alertSound" c)]) as Hp1.
  { unfold played. by rewrite Hread. }
  fold r1 in Hc1. fold r2 in Hc2.
  rewrite Hst1, Hp1 in Hc1. rewrite Hfind, Hst2, Hr1, Hplayed in Hc2.
  cbn -[setting] in Hc1, Hc2. rewrite Hr1, Hr2, Hc1, Hc2.
  pose proof (transitions_background _ Ht1) as T1.
  pose proof (transitions_background _ Ht2) as T2.
  pose proof (sounds_background _ Ht1) as S1.
  pose proof (sounds_background _ Ht2) as S2.
  unfold transitions, sounds_triggered in *. cbn -[setting].
  by rewrite T1, T2, S1, S2.
Qed.

Lemma firing_then_resolved_witness :
  let c := fresh "ws://bridge" "all" ∅ Default in
  let firing := JObj [("id", JStr "a1"); ("status", JStr "firing");
                      ("severity", JStr "critical"); ("name", JStr "CPUHigh");
                      ("instance", JStr "host1")] in
  let resolved := JObj [("id", JStr "a1"); ("status", JStr "resolved")] in
  let r1 := addOrUpdateAlert firing c in
  let r2 := addOrUpdateAlert resolved (final r1) in
  alerts (final r1) = JArr [firing] ∧
  alerts (final r2) = JArr [] ∧
  transitions (calls r1) = [Arrived firing] ∧
  sounds_triggered (calls r1) = [setting "alertSound" c] ∧
  transitions (calls r2) = [Resolved 0] ∧
  sounds_triggered (calls r2) = [setting "resolvedSound" c].
Proof.
  intros c firing resolved.
  apply (firing_then_resolved c (JStr "a1") firing resolved); reflexivity.
Defined.

(** C2 as the specification states it fails.  An id that is an array is
    never found again, because [===] compares two parsed arrays by
    reference: after the firing and the resolved frame with the id [[1]] the
    entry is still in the set, and the second call makes no transition and
    plays no sound.  And on a client constructed on the stored settings
    [null] the firing call stores the alert and throws before [playSound] is
    called. *)
Lemma firing_then_resolved_keeps_array_id :
  let c := fresh "ws://bridge" "all" ∅ Default in
  let c0 := final (constructor (fresh "ws://bridge" "all"
                     {["alertbridge-settings" := Encodes (NotObject JNull)]} Default)) in
  let firing := JObj [("id", JArr [JNum 1]); ("status", JStr "firing");
                      ("severity", JStr "critical"); ("name", JStr "CPUHigh");
                      ("instance", JStr "host1")] in
  let resolved := JObj [("id", JArr [JNum 1]); ("status", JStr "resolved")] in
  let r1 := addOrUpdateAlert firing c in
  let r2 := addOrUpdateAlert resolved (final r1) in
  let r0 := addOrUpdateAlert firing c0 in
  (alerts (final r1) = JArr [firing] ∧
   alerts (final r2) = JArr [firing] ∧
   transitions (calls r2) = [] ∧
   sounds_triggered (calls r2) = []) ∧
  (alerts c0 = JArr [] ∧
   alerts (final r0) = JArr [firing] ∧
   sounds_triggered (calls r0) = [] ∧
   thrown r0 = Some TypeError).
Proof. by vm_compute. Qed.




(** C3.  The code does not do what the specification asks.  On a connected client
    whose retry counter is below the maximum, a click on the connect button
    closes the socket; the browser then delivers the close event, and
    [onclose] schedules a reconnect timer as it does for any closure; when
    the timer expires a new socket is opened.  The click cancels no timer:
    the pending ones stay pending. *)
Theorem user_close_schedules_reconnect (c : client) (k : nat) :
  connected c = true →
  ws c = Some k →
  sockets c !! k = Some OPEN →
  (reconnectAttempts c < maxReconnectAttempts)%Z →
  let evs := [ClickConnect; SocketClose k; TimerFires] in
  possible evs c = true ∧
  (run evs c).2 =
    [WsClose k; ConsoleLog "WebSocket disconnected" []; UpdateConnectionUI;
     SetTimeout reconnectDelay; NewWebSocket (length (sockets c))] ∧
  timers (final (deliver ClickConnect c)) = timers c ∧
  timers (run [ClickConnect; SocketClose k] c).1 = S (timers c) ∧
  reconnectAttempts (run [ClickConnect; SocketClose k] c).1 = (reconnectAttempts c + 1)%Z.
Proof.
  intros Hcon Hws Hk Hn evs.
  assert (k < length (sockets c))%nat as Hlt by by eapply lookup_lt_Some.
  assert (deliver ClickConnect c =
          Ok tt (set_sockets (<[k := CLOSING]> (sockets c)) c) [WsClose k]) as Hclick.
  { unfold deliver. cbn [handler browser]. by apply toggleConnection_close. }
  apply Z.ltb_lt in Hn.
  unfold evs. rewrite !run_cons. cbn [possible run fst snd].
  rewrite Hclick. cbn [final calls enabled].
  unfold deliver at 1 2 3 4 5. cbn [handler browser]. rewrite !onclose_run.
  cbn -[maxReconnectAttempts reconnectDelay]. rewrite Hn.
  cbn -[maxReconnectAttempts reconnectDelay].
  rewrite ?onclose_run, ?connectWebSocket_run.
  cbn -[maxReconnectAttempts reconnectDelay]. rewrite ?Hn.
  cbn -[maxReconnectAttempts reconnectDelay].
  rewrite list_lookup_insert_eq by done. rewrite !length_insert.
  repeat split; done.
Qed.

Lemma user_close_schedules_reconnect_witness :
  let c := (run [SocketOpen 0%nat]
              (final (constructor (fresh "ws://bridge" "all" ∅ Default)))).1 in
  let evs := [ClickConnect; SocketClose 0%nat; TimerFires] in
  possible evs c = true ∧
  (run evs c).2 =
    [WsClose 0%nat; ConsoleLog "WebSocket disconnected" []; UpdateConnectionUI;
     SetTimeout reconnectDelay; NewWebSocket (length (sockets c))] ∧
  timers (final (deliver ClickConnect c)) = timers c ∧
  timers (run [ClickConnect; SocketClose 0%nat] c).1 = S (timers c) ∧
  reconnectAttempts (run [ClickConnect; SocketClose 0%nat] c).1 = (reconnectAttempts c + 1)%Z.
Proof.
  intros c. apply (user_close_schedules_reconnect c 0%nat); reflexivity.
Defined.

(** C4, as the code has it.  In a run without clicks that starts with the
    counter in its range and contains five closures and no open, the counter
    has reached 5, the client is not connected, and at most five timers were
    scheduled.  From there, as long as nobody clicks: no closure schedules a
    timer, the counter stays at 5, the only sockets still created are those
    of timers already pending, and the client stays disconnected unless one
    of those opens; once no timer is pending and no socket is connecting, it
    stays disconnected and creates no socket in every run the browser can
    produce.  The counter grows by one exactly when a closure schedules a
    retry; an open leaves it alone; no event but a click lowers it; a click
    on a disconnected client (the user's reconnect) sets it to 0, a click on
    a connected one leaves it. *)
Theorem reconnect_attempts_bounded (c : client) (evs more : list event) :
  (0 ≤ reconnectAttempts c ≤ maxReconnectAttempts)%Z →
  Forall (λ ev, is_click ev = false) evs →
  Forall (λ ev, is_open ev = false) evs →
  (5 ≤ closures evs)%nat →
  Forall (λ ev, is_click ev = false) more →
  let c1 := (run evs c).1 in
  let c2 := (run more c1).1 in
  (reconnectAttempts c1 = 5 ∧ connected c1 = false ∧ (scheduled (run evs c).2 ≤ 5)%nat) ∧
  (scheduled (run more c1).2 = 0%nat ∧ reconnectAttempts c2 = 5 ∧
   (possible more c1 = true → (created (run more c1).2 ≤ timers c1)%nat) ∧
   (Forall (λ ev, is_open ev = false) more → connected c2 = false) ∧
   (possible more c1 = true → timers c1 = 0%nat →
    Forall (λ s, s ≠ CONNECTING) (sockets c1) →
    connected c2 = false ∧ created (run more c1).2 = 0%nat)) ∧
  (∀ c k, let r := deliver (SocketClose k) c in
     reconnectAttempts (final r) = (reconnectAttempts c + Z.of_nat (scheduled (calls r)))%Z ∧
     (scheduled (calls r) ≤ 1)%nat) ∧
  (∀ c k, reconnectAttempts (final (deliver (SocketOpen k) c)) = reconnectAttempts c) ∧
  (∀ c ev, is_click ev = false →
     (reconnectAttempts c ≤ reconnectAttempts (final (deliver ev c)))%Z) ∧
  (∀ c, reconnectAttempts (final (deliver ClickConnect c)) =
        if connected c then reconnectAttempts c else 0).
Proof.
  intros Hn Hevs Hops Hfive Hmore c1 c2.
  destruct (run_automatic evs c Hevs Hn) as (Hn1 & Hs1 & _ & Hc1).
  fold c1 in Hn1, Hs1, Hc1. unfold maxReconnectAttempts in *.
  assert (reconnectAttempts c1 = 5) as H5 by lia.
  destruct (run_automatic more c1 Hmore) as (Hn2 & Hs2 & Ht2 & Hc2).
  { unfold maxReconnectAttempts. lia. }
  fold c2 in Hn2, Hs2, Hc2, Ht2. unfold maxReconnectAttempts in *.
  assert (connected c1 = false) as Hcon1.
  { rewrite (Hc1 Hops). destruct (decide (closures evs = 0%nat)); [exfalso; lia|done]. }
  split; [|split; [|split; [|split; [|split]]]].
  - repeat split; [done..|lia].
  - split; [lia|]. split; [lia|]. split; [|split].
    + intros Hposs. specialize (Ht2 Hposs). lia.
    + intros Hops2. rewrite (Hc2 Hops2). by destruct (decide (closures more = 0%nat)).
    + intros Hposs Htm Hsock.
      apply (run_quiet more c1 Hmore Hposs Htm Hsock); [|done].
      unfold maxReconnectAttempts. lia.
  - intros c' k. destruct (deliver_automatic (SocketClose k) c' eq_refl) as (Hr & Hs & _).
    rewrite Hr, Hs. destruct (_ && _); split; lia.
  - intros c' k. by destruct (deliver_automatic (SocketOpen k) c' eq_refl) as (-> & _).
  - intros c' ev Hev. destruct (deliver_automatic ev c' Hev) as (-> & _).
    destruct (_ && _); lia.
  - apply deliver_click_counter.
Qed.

Lemma reconnect_attempts_bounded_witness :
  let c := final (constructor (fresh "ws://bridge" "all" ∅ Default)) in
  let evs := [SocketClose 0; TimerFires; SocketClose 1; TimerFires; SocketClose 2;
              TimerFires; SocketClose 3; TimerFires; SocketClose 4; TimerFires;
              SocketClose 5]%nat in
  let more := [SocketError 5%nat] in
  let c1 := (run evs c).1 in
  let c2 := (run more c1).1 in
  possible (evs ++ more) c = true ∧
  (reconnectAttempts c1 = 5 ∧ connected c1 = false ∧ (scheduled (run evs c).2 ≤ 5)%nat) ∧
  scheduled (run more c1).2 = 0%nat ∧ reconnectAttempts c2 = 5 ∧
  (created (run more c1).2 ≤ timers c1)%nat ∧
  timers c1 = 0%nat ∧
  connected c2 = false ∧ created (run more c1).2 = 0%nat.
Proof.
  intros c evs more c1 c2. split; [reflexivity|].
  destruct (reconnect_attempts_bounded c evs more)
    as (H1 & (Hscheduled & Hcounter & Hcreated & _ & Hquiet) & _).
  - by vm_compute.
  - by repeat constructor.
  - by repeat constructor.
  - vm_compute. lia.
  - by repeat constructor.
  - split; [exact H1|]. split; [exact Hscheduled|]. split; [exact Hcounter|].
    split; [by apply Hcreated|]. split; [reflexivity|].
    apply Hquiet; [reflexivity|reflexivity|].
    by repeat constructor.
Defined.

(** C4 as the specification states it fails: after five closures without
    an open the channel need not stay closed.  The fifth closure schedules
    the fifth retry; when that timer expires a sixth socket is created, and
    when it opens the client is connected again, without any click. *)
Lemma fifth_retry_can_open :
  let c := final (constructor (fresh "ws://bridge" "all" ∅ Default)) in
  let evs := [SocketClose 0; TimerFires; SocketClose 1; TimerFires; SocketClose 2;
              TimerFires; SocketClose 3; TimerFires; SocketClose 4]%nat in
  let more := [TimerFires; SocketOpen 5%nat] in
  possible (evs ++ more) c = true ∧
  Forall (λ ev, is_click ev = false) (evs ++ more) ∧
  Forall (λ ev, is_open ev = false) evs ∧
  closures evs = 5%nat ∧
  reconnectAttempts (run evs c).1 = 5 ∧
  connected (run evs c).1 = false ∧
  connected (run more (run evs c).1).1 = true.
Proof.
  intros c evs more. split; [by vm_compute|].
  split; [by repeat constructor|]. split; [by repeat constructor|]. by vm_compute.
Qed.

(** C5.  The [alerts_list] message assigns its payload to [this.alerts],
    whatever the array held before and however the two differ, and then
    only calls [renderAlerts]: no transition, no sound, no notification. *)
Theorem alerts_list_replaces_silently (c : client) (data payload : jsval) :
  get data "type" = Some (JStr "alerts_list") →
  get data "alerts" = Some payload →
  let r := handleMessage data c in
  final r = set_alerts payload c ∧
  alerts (final r) = payload ∧
  calls r = [RenderAlerts] ∧
  transitions (calls r) = [] ∧
  Forall (λ a, side_effect a = false) (calls r).
Proof.
  intros Htype Hpayload r.
  destruct (handleMessage_alerts_list c data payload Htype Hpayload) as [Hf Hcalls].
  unfold r. rewrite Hf, Hcalls. by repeat constructor.
Qed.

Lemma alerts_list_replaces_silently_witness :
  let c := set_alerts (JArr [JObj [("id", JStr "a0"); ("status", JStr "firing")]])
             (fresh "ws://bridge" "all" ∅ Granted) in
  let payload := JArr [JObj [("id", JStr "a1"); ("status", JStr "firing")];
                       JObj [("id", JStr "a2"); ("status", JStr "firing")]] in
  let r := handleMessage (JObj [("type", JStr "alerts_list"); ("alerts", payload)]) c in
  final r = set_alerts payload c ∧
  alerts (final r) = payload ∧
  calls r = [RenderAlerts] ∧
  transitions (calls r) = [] ∧
  Forall (λ a, side_effect a = false) (calls r).
Proof.
  intros c payload.
  apply (alerts_list_replaces_silently c _ payload); reflexivity.
Defined.

(** C10.  The [alerts_list] message stores the array it carries as it is:
    entries with the same id stay, resolved entries stay.  After a snapshot
    the alert array need not satisfy [alert_set]. *)
Theorem snapshot_stored_verbatim :
  (∀ c xs, alerts (final (handleMessage (snapshot xs) c)) = JArr xs) ∧
  (∀ c, ∃ xs,
     alerts (final (handleMessage (snapshot xs) c)) = JArr xs ∧
     ¬ distinct (id_of <$> xs)) ∧
  (∀ c, ∃ xs,
     alerts (final (handleMessage (snapshot xs) c)) = JArr xs ∧
     ¬ Forall (λ a, is_str (status_of a) "resolved" = false) xs).
Proof.
  assert (∀ c xs, alerts (final (handleMessage (snapshot xs) c)) = JArr xs) as Hsnap.
  { intros c xs.
    by destruct (handleMessage_alerts_list c (snapshot xs) (JArr xs)) as [-> _]. }
  split; [done|]. split; intros c.
  - exists [JObj [("id", JStr "a1"); ("status", JStr "firing")];
            JObj [("id", JStr "a1"); ("status", JStr "firing")]].
    split; [done|]. simpl. intros [H _]. by apply Forall_cons in H as [? _].
  - exists [JObj [("id", JStr "a1"); ("status", JStr "resolved")]].
    split; [done|]. intros H. by apply Forall_cons in H as [? _].
Qed.

(** C7, as the code has it.  A frame that decodes to a value whose type tag
    is none of the six handled ones changes no field, throws nothing, and
    is only logged.  A frame that does not decode changes no field and
    makes no call. *)
Theorem unrecognized_frame_dropped (c : client) (data type : jsval) :
  get data "type" = Some type →
  recognized type = false →
  onmessage (Json data) c = Ok tt c [ConsoleLog "Unknown message type:" [type]] ∧
  final (onmessage Garbled c) = c ∧
  calls (onmessage Garbled c) = [].
Proof.
  intros Htype Hrec. split; [|done].
  unfold recognized in Hrec. repeat apply orb_false_elim in Hrec as [Hrec ?].
  unfold onmessage, JSON_parse, handleMessage, mbind, M_bind. cbn.
  rewrite Htype. cbn. by repeat match goal with H : is_str type _ = false |- _ => rewrite H; clear H end.
Qed.

Lemma unrecognized_frame_dropped_witness :
  let c := fresh "ws://bridge" "all" ∅ Default in
  let data := JObj [("type", JStr "heartbeat")] in
  onmessage (Json data) c = Ok tt c [ConsoleLog "Unknown message type:" [JStr "heartbeat"]] ∧
  final (onmessage Garbled c) = c ∧
  calls (onmessage Garbled c) = [].
Proof.
  intros c data. apply (unrecognized_frame_dropped c data (JStr "heartbeat")); reflexivity.
Defined.

(** C7 as the specification states it fails.  A frame tagged [alerts_list] that carries no
    [alerts] array replaces the alert array by [undefined] and ends in a
    TypeError; a frame that is not JSON ends the handler with a SyntaxError
    that the client does not log. *)
Lemma malformed_frame_changes_state :
  let c := fresh "ws://bridge" "all" ∅ Default in
  let r := onmessage (Json (JObj [("type", JStr "alerts_list")])) c in
  alerts c = JArr [] ∧
  alerts (final r) = JUndefined ∧
  thrown r = Some TypeError ∧
  thrown (onmessage Garbled c) = Some SyntaxError ∧
  calls (onmessage Garbled c) = [].
Proof. by vm_compute. Qed.

(** C8.  The code does not do what the specification asks: the volume chosen in the
    dialog never takes effect.  [saveSettings] stores the slider under the
    name [notificationVolume], while [playSound] reads [volume] (and
    [openSettings] reads [notification_volume]).  After a successful save
    the settings are the old ones overlaid with the six fields of the
    dialog: [volume] is what it was, next to the new sound names, and the
    sound chosen in the dialog is played at the old gain.  When the answer
    does not report success nothing changes and the error notice is shown;
    when the request fails, or the answer is not JSON or is [null], nothing
    changes, the handler ends in an exception and no notice is shown. *)
Theorem saveSettings_keeps_old_volume :
  (∀ c f data success,
     get data "success" = Some success → truthy success = true →
     let r := saveSettings f (Body data) c in
     thrown r = None ∧
     calls r = [Fetch "POST" "/api/settings/update/" (newSettings f);
                ShowSnackbar "Настройки сохранены" false; CloseSettings] ∧
     settings (final r) = Fields (newSettings f ∪ fields_of (settings c)) ∧
     setting "alertSound" (final r) = JStr (alert_sound_select f) ∧
     setting "notificationVolume" (final r) = JNum (volume_slider f) ∧
     setting "volume" (final r) = setting "volume" c) ∧
  (∀ c f data success,
     get data "success" = Some success → truthy success = false →
     saveSettings f (Body data) c =
       Ok tt c [Fetch "POST" "/api/settings/update/" (newSettings f);
                ShowSnackbar "Ошибка сохранения" true]) ∧
  (∀ c f,
     let request := Fetch "POST" "/api/settings/update/" (newSettings f) in
     saveSettings f FetchRejected c = Err NetworkError c [request] ∧
     saveSettings f BodyNotJson c = Err SyntaxError c [request] ∧
     saveSettings f (Body JNull) c = Err TypeError c [request]) ∧
  (let chime := JObj [("id", JNum 1); ("name", JStr "chime"); ("url", JStr "/media/chime.wav")] in
   let c := set_sounds (JArr [chime]) (fresh "ws://bridge" "all" ∅ Default) in
   let f := Form "ws://bridge" true true 30 "chime" "Без звука" in
   let c' := final (saveSettings f (Body (JObj [("success", JBool true)])) c) in
   setting "volume" c = JNum 70 ∧
   setting "volume" c' = JNum 70 ∧
   setting "alertSound" c' = JStr "chime" ∧
   playSound (setting "alertSound" c') c' =
     Ok tt c' [PlaySound (JStr "chime"); AudioPlay (JStr "/media/chime.wav") (JNum 70)] ∧
   saveSettings f (Body (JObj [("success", JBool false)])) c =
     Ok tt c [Fetch "POST" "/api/settings/update/" (newSettings f);
              ShowSnackbar "Ошибка сохранения" true]).
Proof.
  split; [|split; [|split]].
  - intros c f data success Hdata Hsuccess r. unfold r.
    rewrite (saveSettings_success f data success c Hdata Hsuccess).
    cbn [thrown calls final settings set_settings set_server_url].
    split; [done|]. split; [done|]. split; [done|].
    rewrite !setting_set_server_url, !setting_overlay.
    split; [done|]. split; [done|].
    change (newSettings f !! "volume") with (@None jsval).
    unfold setting. apply fields_of_read; [compute; lia|done].
  - intros c f data success Hdata Hsuccess. by apply (saveSettings_refused f data success).
  - by intros c f.
  - by vm_compute.
Qed.

(** C9.  The code does not do what the specification asks: [saveSettings] never
    writes [localStorage].  After a successful save on a fresh client the
    settings have changed and the key [alertbridge-settings] is still
    absent; [saveSettingsToStorage] would have written it. *)
Theorem saveSettings_leaves_localStorage :
  (∀ c f r, localStorage (final (saveSettings f r c)) = localStorage c) ∧
  let c := fresh "ws://bridge" "all" ∅ Default in
  let f := Form "ws://other" false false 30 "Системный звук" "Без звука" in
  let c' := final (saveSettings f (Body (JObj [("success", JBool true)])) c) in
  settings c' ≠ settings c ∧
  localStorage c' !! "alertbridge-settings" = None ∧
  localStorage (final (saveSettingsToStorage c')) !! "alertbridge-settings" =
    Some (Encodes (settings c')).
Proof.
  split.
  - intros c f r. destruct (accepted r) eqn:Hr.
    + unfold accepted in Hr. destruct r as [| |data]; try done.
      destruct (get data "success") as [success|] eqn:Hdata; [|done].
      by rewrite (saveSettings_success f data success c Hdata Hr).
    + by destruct (saveSettings_failure f r c Hr) as [-> _].
  - intros c f c'. split; [|split; by vm_compute].
    intros H. apply (f_equal (λ s, read s "alertSound")) in H. vm_compute in H. discriminate H.
Qed.

(** ** Further properties of the code *)

(** *** Sounds and notifications *)

Lemma find_none p xs :
  Forall (λ s, p s = Some false) xs → find p xs = Some JUndefined.
Proof.
  intros H. unfold find.
  assert (findIndex p xs = Some None) as ->; [|done].
  induction H as [|s xs Hs _ IH]; [done|]. simpl. by rewrite Hs, IH.
Qed.

Lemma find_first p pre s post :
  Forall (λ x, p x = Some false) pre → p s = Some true →
  find p (pre ++ s :: post) = Some s.
Proof.
  intros H Hs. unfold find.
  assert (findIndex p (pre ++ s :: post) = Some (Some (length pre))) as ->.
  { induction H as [|x pre Hx _ IH]; simpl; [by rewrite Hs|]. by rewrite Hx, IH. }
  by rewrite list_lookup_middle.
Qed.

(** the callback [s => s.name === soundName] on entries named otherwise *)
Lemma name_test_false (p : jsval → option bool) soundName xs :
  (∀ s, p s = match get s "name" with
              | Some name => Some (strict_eq name soundName)
              | None => None
              end) →
  readable xs → unnamed soundName xs →
  Forall (λ s, p s = Some false) xs.
Proof.
  intros Hp Hr Hu. induction xs as [|s xs IH]; [constructor|].
  apply Forall_cons in Hr as [Hs Hr]. apply Forall_cons in Hu as [Hsu Hu].
  constructor; [|by apply IH]. rewrite Hp.
  destruct (get_nullish s "name" Hs) as [name Hname]. rewrite Hname in *. simpl in Hsu.
  by rewrite Hsu.
Qed.

(** X1.  A name that is not in a well-formed catalog is a silent no-op:
    [playSound] returns normally, leaves the client as it is and plays no
    audio file. *)
Theorem playSound_missing_name (c : client) (xs : list jsval) (soundName : jsval) :
  sounds c = JArr xs →
  readable xs →
  unnamed soundName xs →
  let r := playSound soundName c in
  thrown r = None ∧ final r = c ∧ Forall (λ a, is_audio a = false) (calls r).
Proof.
  intros Hc Hr Hu r. unfold r, playSound, mbind, M_bind, gets, emit. cbn.
  destruct (negb (truthy soundName) || is_str soundName "Без звука"); [by repeat constructor|].
  destruct (is_str soundName "Системный звук"); [by repeat constructor|].
  rewrite Hc. cbn.
  match goal with |- context [find ?p xs] =>
    rewrite (find_none p xs (name_test_false p soundName xs (λ _, eq_refl) Hr Hu))
  end.
  cbn. by repeat constructor.
Qed.

Lemma playSound_missing_name_witness :
  let c := set_sounds (JArr [JObj [("name", JStr "chime"); ("url", JStr "/media/chime.wav")]])
             (fresh "ws://bridge" "all" ∅ Default) in
  let r := playSound (JStr "alert.wav") c in
  thrown r = None ∧ final r = c ∧ Forall (λ a, is_audio a = false) (calls r).
Proof.
  intros c.
  apply (playSound_missing_name c
           [JObj [("name", JStr "chime"); ("url", JStr "/media/chime.wav")]]);
    first [reflexivity | by repeat constructor].
Defined.

(** the gain an integer volume gives *)
Lemma set_volume_integer n :
  set_volume (Decimal n 0) =
  if (0 <=? n)%Z && (n <=? 100)%Z then None
  else Some (if at_least (Z.abs n) 0 (2 ^ 1024 - 2 ^ 970) 0 then TypeError else IndexSizeError).
Proof.
  unfold set_volume, at_least, at_most.
  change (Z.max 0 0) with 0. change (Z.max (- 0) 0) with 0. change (10 ^ 0) with 1.
  change (2 ^ 0) with 1. rewrite !Z.mul_1_r.
  let v := eval vm_compute in (2 ^ 1024 - 2 ^ 970) in change (2 ^ 1024 - 2 ^ 970) with v.
  let v := eval vm_compute in (2 ^ 1075) in change (2 ^ 1075) with v.
  let v := eval vm_compute in (100 * 2 ^ 47 + 1) in change (100 * 2 ^ 47 + 1) with v.
  let v := eval vm_compute in (2 ^ 47) in change (2 ^ 47) with v.
  repeat match goal with |- context [(?a <=? ?b)%Z] => destruct (Z.leb_spec a b) end;
    cbn [andb negb]; try done; exfalso; lia.
Qed.

(** What [playSound] does once the first entry of that name is found. *)
Lemma playSound_match (c : client) (pre post : list jsval) (s soundName name url : jsval) :
  sounds c = JArr (pre ++ s :: post) →
  readable pre → unnamed soundName pre →
  get s "name" = Some name → strict_eq name soundName = true →
  get s "url" = Some url → truthy url = true →
  bypasses_catalog soundName = false →
  playSound soundName c =
    match ToString url, read (settings c) "volume" with
    | Some _, Some volume =>
        match ToNumber volume with
        | Some gain =>
            match set_volume gain with
            | None => Ok tt c [PlaySound soundName; AudioPlay url volume]
            | Some e => Err e c [PlaySound soundName]
            end
        | None => Err TypeError c [PlaySound soundName]
        end
    | _, _ => Err TypeError c [PlaySound soundName]
    end.
Proof.
  intros Hc Hr Hu Hname Heq Hurl Htruthy Hby.
  unfold bypasses_catalog in Hby.
  apply orb_false_elim in Hby as [Hby Hbeep].
  unfold playSound, this_settings, mbind, M_bind, gets, emit. cbn.
  rewrite Hby, Hbeep, Hc. cbn.
  match goal with |- context [find ?p (pre ++ s :: post)] =>
    rewrite (find_first p pre s post (name_test_false p soundName pre (λ _, eq_refl) Hr Hu))
  end; [|by cbn; rewrite Hname; cbn; rewrite Heq].
  cbn.
  assert (truthy s = true) as ->.
  { destruct s; try done; cbn in Hname; simplify_eq; by destruct soundName. }
  rewrite Hurl. cbn. rewrite Htruthy.
  destruct (ToString url) as [text|]; cbn; [|done].
  destruct (read (settings c) "volume") as [volume|]; cbn; [|done].
  destruct (ToNumber volume) as [gain|]; cbn; [|done].
  by destruct (set_volume gain).
Qed.

Lemma setting_defined k c v : setting k c = v → v ≠ JUndefined → read (settings c) k = Some v.
Proof.
  unfold setting. destruct (read (settings c) k); cbn; [by intros ->|]. by intros <-.
Qed.

(** X2.  [playSound] plays the first catalog entry that carries the name.
    With the entries before it well formed and differently named, a name
    that is not a sentinel, a truthy [url] that converts to a string and an
    integer [settings.volume]: when the volume is within 0..100 exactly that
    url is played at that volume, and otherwise the call ends in an exception
    of the audio element and nothing is played.  The entries after the match
    are not read. *)
Theorem playSound_first_match (c : client) (pre post : list jsval)
    (s soundName name url : jsval) (n : Z) :
  sounds c = JArr (pre ++ s :: post) →
  readable pre → unnamed soundName pre →
  get s "name" = Some name → strict_eq name soundName = true →
  get s "url" = Some url → truthy url = true →
  convertible url = true →
  setting "volume" c = JNum n →
  bypasses_catalog soundName = false →
  playSound soundName c =
    if (0 <=? n)%Z && (n <=? 100)%Z
    then Ok tt c [PlaySound soundName; AudioPlay url (JNum n)]
    else Err (if at_least (Z.abs n) 0 (2 ^ 1024 - 2 ^ 970) 0 then TypeError else IndexSizeError)
           c [PlaySound soundName].
Proof.
  intros Hc Hr Hu Hname Heq Hurl Htruthy Hconv Hvol Hby.
  rewrite (playSound_match c pre post s soundName name url) by done.
  unfold convertible in Hconv. destruct (ToString url) as [text|]; [|done].
  rewrite (setting_defined _ _ _ Hvol) by done.
  cbn [ToNumber ToPrimitive]. rewrite set_volume_integer.
  by destruct ((0 <=? n)%Z && (n <=? 100)%Z).
Qed.

Lemma playSound_first_match_witness :
  let chime := JObj [("name", JStr "chime"); ("url", JStr "/media/chime.wav")] in
  let c := set_sounds (JArr [JObj [("name", JStr "bell"); ("url", JStr "/media/bell.wav")];
                             chime; JNull])
             (fresh "ws://bridge" "all" ∅ Default) in
  playSound (JStr "chime") c =
    if (0 <=? 70)%Z && (70 <=? 100)%Z
    then Ok tt c [PlaySound (JStr "chime"); AudioPlay (JStr "/media/chime.wav") (JNum 70)]
    else Err (if at_least (Z.abs 70) 0 (2 ^ 1024 - 2 ^ 970) 0 then TypeError else IndexSizeError)
           c [PlaySound (JStr "chime")].
Proof.
  intros chime c.
  apply (playSound_first_match c
           [JObj [("name", JStr "bell"); ("url", JStr "/media/bell.wav")]] [JNull]
           chime (JStr "chime") (JStr "chime") (JStr "/media/chime.wav") 70);
    first [reflexivity | by repeat constructor].
Defined.

(** X3.  When the sound catalog is not an array, [playSound] throws a
    TypeError for exactly the names that need the catalog; the sentinel
    names and the falsy ones still return normally. *)
Theorem playSound_needs_catalog (c : client) (soundName : jsval) :
  (∀ xs, sounds c ≠ JArr xs) →
  thrown (playSound soundName c) =
    (if bypasses_catalog soundName then None else Some TypeError) ∧
  final (playSound soundName c) = c.
Proof.
  intros Hc. split; [|by destruct (playSound_keeps soundName c) as [<- _]].
  unfold bypasses_catalog, playSound, mbind, M_bind, gets, emit. cbn.
  destruct (negb (truthy soundName) || is_str soundName "Без звука"); [done|].
  destruct (is_str soundName "Системный звук"); [done|]. cbn.
  destruct (sounds c) as [| | | | |xs|]; try done. by destruct (Hc xs).
Qed.

Lemma playSound_needs_catalog_witness :
  let c := set_sounds JUndefined (fresh "ws://bridge" "all" ∅ Default) in
  (thrown (playSound (JStr "alert.wav") c) =
     (if bypasses_catalog (JStr "alert.wav") then None else Some TypeError) ∧
   final (playSound (JStr "alert.wav") c) = c) ∧
  (thrown (playSound (JStr "Системный звук") c) =
     (if bypasses_catalog (JStr "Системный звук") then None else Some TypeError) ∧
   final (playSound (JStr "Системный звук") c) = c).
Proof.
  intros c. split; apply (playSound_needs_catalog c); intros xs; discriminate.
Defined.

Lemma playSound_broken_catalog soundName c :
  (∀ xs, sounds c ≠ JArr xs) → bypasses_catalog soundName = false →
  playSound soundName c = Err TypeError c [PlaySound soundName].
Proof.
  intros Hc Hby. unfold bypasses_catalog in Hby. apply orb_false_elim in Hby as [Hby Hbeep].
  unfold playSound, mbind, M_bind, gets, emit. cbn. rewrite Hby, Hbeep. cbn.
  destruct (sounds c) as [| | | | |xs|]; try done. by destruct (Hc xs).
Qed.

(** X4.  A new firing alert that arrives while the sound catalog is not an
    array is stored, but the handler ends in [playSound] with a TypeError:
    no notification is raised and the table and the counters are not
    refreshed. *)
Theorem arrival_with_broken_catalog (c : client) (xs : list jsval) (alert : jsval) :
  alerts c = JArr xs →
  readable xs →
  absent (id_of alert) xs →
  get alert "status" = Some (JStr "firing") →
  (∀ ys, sounds c ≠ JArr ys) →
  bypasses_catalog (setting "alertSound" c) = false →
  addOrUpdateAlert alert c =
    Err TypeError (set_alerts (JArr (xs ++ [alert])) c)
      [AlertsPush alert; PlaySound (setting "alertSound" c)].
Proof.
  intros Hc Hxs Habs Hst Hsounds Hby.
  pose proof (get_Some_readable _ _ _ Hst) as Hn.
  assert (settings_readable c = true) as Hread.
  { apply (truthy_setting c "alertSound"). unfold bypasses_catalog in Hby.
    destruct (truthy (setting "alertSound" c)); [done|]. by cbn in Hby. }
  unfold addOrUpdateAlert, mbind, M_bind, gets. rewrite Hc.
  rewrite (findIndex_absent alert xs Hxs Hn Habs). cbn [try]. rewrite Hst. cbn.
  rewrite (alerts_push_run _ _ _ Hc), this_settings_run.
  change (settings_readable (set_alerts (JArr (xs ++ [alert])) c)) with (settings_readable c).
  rewrite Hread, setting_set_alerts.
  by rewrite playSound_broken_catalog.
Qed.

Lemma arrival_with_broken_catalog_witness :
  let c := set_sounds JUndefined (fresh "ws://bridge" "all" ∅ Granted) in
  let alert := JObj [("id", JStr "a1"); ("status", JStr "firing")] in
  addOrUpdateAlert alert c =
    Err TypeError (set_alerts (JArr ([] ++ [alert])) c)
      [AlertsPush alert; PlaySound (setting "alertSound" c)].
Proof.
  intros c alert. apply (arrival_with_broken_catalog c [] alert);
    first [reflexivity | by constructor | by intros ys].
Defined.

(** X5.  An alert whose id is already in the set, with any status other
    than 'resolved', replaces the stored entry at its position: the other
    entries and the length stay, no sound is played and no notification is
    raised.  The entries of the set and the new one can be displayed, so the
    table and the counters are refreshed. *)
Theorem update_in_place (c : client) (xs : list jsval) (i : nat) (old alert : jsval) :
  alerts c = JArr xs →
  Forall displayable xs →
  distinct (id_of <$> xs) →
  xs !! i = Some old →
  displayable alert →
  strict_eq (id_of old) (id_of alert) = true →
  is_str (status_of alert) "resolved" = false →
  addOrUpdateAlert alert c =
    Ok tt (set_alerts (JArr (<[i := alert]> xs)) c)
      [AlertsAssign i alert; RenderAlerts; UpdateStats].
Proof.
  intros Hc Hrows Hd Hi Hrow Hid Hres.
  assert (readable xs) as Hxs.
  { eapply Forall_impl; [exact Hrows|]. apply displayable_readable. }
  pose proof (displayable_readable _ Hrow) as Hn.
  unfold addOrUpdateAlert, mbind, M_bind, gets. rewrite Hc.
  rewrite (findIndex_present alert xs i old Hxs Hd Hn Hi Hid). cbn [try].
  destruct (get_nullish alert "status" Hn) as [status Hst].
  unfold status_of in Hres. rewrite Hst in *. cbn in Hres. cbn. rewrite Hres.
  rewrite (alerts_assign_run _ _ _ _ Hc).
  assert (readable (<[i := alert]> xs)) as Hxs' by by apply Forall_insert.
  assert (Forall displayable (<[i := alert]> xs)) as Hrows' by by apply Forall_insert.
  by rewrite (renderAlerts_ok _ (<[i := alert]> xs)), (updateStats_ok _ (<[i := alert]> xs)).
Qed.

Lemma update_in_place_witness :
  let a1 := JObj [("id", JStr "a1"); ("status", JStr "firing"); ("severity", JStr "warning")] in
  let a2 := JObj [("id", JStr "a2"); ("status", JStr "firing")] in
  let a2' := JObj [("id", JStr "a2"); ("status", JStr "pending"); ("severity", JStr "critical")] in
  let c := set_alerts (JArr [a1; a2]) (fresh "ws://bridge" "critical" ∅ Default) in
  addOrUpdateAlert a2' c =
    Ok tt (set_alerts (JArr (<[1%nat := a2']> [a1; a2])) c)
      [AlertsAssign 1 a2'; RenderAlerts; UpdateStats].
Proof.
  intros a1 a2 a2' c.
  apply (update_in_place c [a1; a2] 1 a2 a2');
    first [reflexivity | by repeat constructor].
Defined.

(** X6.  [showNotification] changes nothing.  On a client whose settings
    can be read and for an alert with properties, it raises a desktop
    notification exactly when [settings.showNotifications] is truthy, the
    permission is granted and the name and the instance of the alert convert
    to a string; it throws, a TypeError, exactly when the setting is truthy,
    the permission is granted and one of the two does not convert; and it
    asks for the permission exactly when the setting is truthy and the
    permission is still undecided. *)
Theorem showNotification_gating (c : client) (title : string) (alert : jsval) :
  nullish alert = false →
  settings_readable c = true →
  let r := showNotification title alert c in
  let wanted := truthy (setting "showNotifications" c) in
  let granted := match notification_permission c with Granted => true | _ => false end in
  let text := convertible (default JUndefined (get alert "name")) &&
              convertible (default JUndefined (get alert "instance")) in
  final r = c ∧
  thrown r = (if wanted && granted && negb text then Some TypeError else None) ∧
  existsb is_notification (calls r) = wanted && granted && text ∧
  existsb is_permission_request (calls r) =
    wanted && match notification_permission c with Default => true | _ => false end.
Proof.
  intros Hn Hread r wanted granted text.
  unfold r, wanted, granted, text, showNotification, this_settings,
    mbind, M_bind, emit, gets. cbn.
  rewrite (read_setting c _ Hread). cbn.
  destruct (truthy (setting "showNotifications" c)); cbn; [|done].
  destruct (notification_permission c); cbn; [|done..].
  destruct (get_nullish alert "name" Hn) as [name ->].
  destruct (get_nullish alert "instance" Hn) as [instance ->].
  unfold convertible. cbn.
  destruct (ToString name); cbn; [|done]. by destruct (ToString instance).
Qed.

Lemma showNotification_gating_witness :
  let c := fresh "ws://bridge" "all" ∅ Granted in
  let alert := JObj [("name", JStr "CPUHigh"); ("instance", JObj [("toString", JNull)])] in
  let r := showNotification "Новый алерт" alert c in
  let wanted := truthy (setting "showNotifications" c) in
  let granted := match notification_permission c with Granted => true | _ => false end in
  let text := convertible (default JUndefined (get alert "name")) &&
              convertible (default JUndefined (get alert "instance")) in
  final r = c ∧
  thrown r = (if wanted && granted && negb text then Some TypeError else None) ∧
  existsb is_notification (calls r) = wanted && granted && text ∧
  existsb is_permission_request (calls r) =
    wanted && match notification_permission c with Default => true | _ => false end.
Proof.
  intros c alert. by apply (showNotification_gating c "Новый алерт" alert).
Defined.

(** *** Message dispatch *)

(** X7.  A [bridge.message] envelope around an alert message is handled
    exactly as the alert message itself: same fields, same calls, same
    outcome. *)
Theorem envelope_is_alert (c : client) (envelope message plain alert : jsval) :
  get envelope "type" = Some (JStr "bridge.message") →
  get envelope "message" = Some message →
  get message "type" = Some (JStr "alert") →
  get message "data" = Some alert →
  get plain "type" = Some (JStr "alert") →
  get plain "data" = Some alert →
  handleMessage envelope c = handleMessage plain c ∧
  handleMessage plain c = addOrUpdateAlert alert c.
Proof.
  intros He Hm Hmt Hmd Hp Hpd.
  assert (handleMessage plain c = addOrUpdateAlert alert c) as Hplain.
  { unfold handleMessage. unfold mbind at 1, M_bind at 1. rewrite Hp. cbn [try mret M_ret].
    cbn [is_str strict_eq String.eqb Ascii.eqb Bool.eqb].
    unfold mbind at 1, M_bind at 1. rewrite Hpd. cbn [try mret M_ret app].
    by destruct (addOrUpdateAlert alert c). }
  split; [|done]. rewrite Hplain.
  unfold handleMessage. unfold mbind at 1, M_bind at 1. rewrite He. cbn [try mret M_ret].
  cbn [is_str strict_eq String.eqb Ascii.eqb Bool.eqb].
  unfold mbind at 1, M_bind at 1. rewrite Hm. cbn [try mret M_ret app].
  unfold mbind at 1, M_bind at 1. rewrite Hmt. cbn [try mret M_ret app].
  cbn [is_str strict_eq String.eqb Ascii.eqb Bool.eqb].
  unfold mbind at 1, M_bind at 1. rewrite Hmd. cbn [try mret M_ret app].
  by destruct (addOrUpdateAlert alert c).
Qed.

Lemma envelope_is_alert_witness :
  let c := fresh "ws://bridge" "all" ∅ Default in
  let alert := JObj [("id", JStr "a1"); ("status", JStr "firing")] in
  let plain := JObj [("type", JStr "alert"); ("data", alert)] in
  let envelope := JObj [("type", JStr "bridge.message"); ("message", plain)] in
  handleMessage envelope c = handleMessage plain c ∧
  handleMessage plain c = addOrUpdateAlert alert c.
Proof.
  intros c alert plain envelope.
  apply (envelope_is_alert c envelope plain plain alert); reflexivity.
Defined.

(** X8.  A [bridge.message] envelope whose inner message is of any type
    other than 'alert' is dropped without a trace: nothing changes, nothing
    is logged, nothing is thrown. *)
Theorem envelope_of_other_type_ignored (c : client) (envelope message type : jsval) :
  get envelope "type" = Some (JStr "bridge.message") →
  get envelope "message" = Some message →
  get message "type" = Some type →
  is_str type "alert" = false →
  handleMessage envelope c = Ok tt c [].
Proof.
  intros He Hm Hmt Hty. unfold handleMessage, mbind, M_bind. rewrite He. cbn.
  rewrite Hm. cbn. rewrite Hmt. cbn. by rewrite Hty.
Qed.

Lemma envelope_of_other_type_ignored_witness :
  let c := fresh "ws://bridge" "all" ∅ Default in
  let message := JObj [("type", JStr "status"); ("connected_to_bridge", JBool true)] in
  handleMessage (JObj [("type", JStr "bridge.message"); ("message", message)]) c = Ok tt c [].
Proof.
  intros c message.
  apply (envelope_of_other_type_ignored c _ message (JStr "status")); reflexivity.
Defined.

Lemma addOrUpdateAlert_rest alert :
  keeps (agree_on rest_of) (λ _, True) (addOrUpdateAlert alert).
Proof.
  intros c. split; [|by apply Forall_true].
  unfold agree_on. rewrite addOrUpdateAlert_final. by destruct (alerts c).
Qed.

(** X9.  Handling an inbound frame, whatever it is and however it ends,
    changes at most the alert array, the sound catalog and the bridge flag:
    the settings, the connection flag, the retry counter, the sockets, the
    timers and the local storage stay as they are. *)
Theorem frames_leave_the_rest (c : client) (f : frame) :
  rest_of (final (onmessage f c)) = rest_of c.
Proof.
  symmetry. revert c.
  assert (keeps (agree_on rest_of) (λ _, True) (onmessage f)) as H; [|intros c; apply H].
  unfold onmessage, JSON_parse, handleMessage, updateConnectionUI.
  pose proof addOrUpdateAlert_rest.
  assert (keeps (agree_on rest_of) (λ _, True) renderAlerts).
  { eapply keeps_weaken; [|done|apply renderAlerts_keeps]. by intros ?? <-. }
  assert (keeps (agree_on rest_of) (λ _, True) updateSoundsUI).
  { eapply keeps_weaken; [|done|apply updateSoundsUI_keeps]. by intros ?? <-. }
  keeps.
Qed.

(** X10.  While [this.alerts] is not an array, every [addOrUpdateAlert]
    call ends in a TypeError before it changes or calls anything; an
    [alerts_list] message that carries an array puts that array back. *)
Theorem alerts_not_an_array (c : client) (alert : jsval) (xs : list jsval) :
  (∀ ys, alerts c ≠ JArr ys) →
  addOrUpdateAlert alert c = Err TypeError c [] ∧
  alerts (final (handleMessage (snapshot xs) c)) = JArr xs.
Proof.
  intros Hc. split.
  - unfold addOrUpdateAlert, mbind, M_bind, gets.
    destruct (alerts c) as [| | | | |ys|]; try done. by destruct (Hc ys).
  - by destruct (handleMessage_alerts_list c (snapshot xs) (JArr xs)) as [-> _].
Qed.

Lemma alerts_not_an_array_witness :
  let c := final (handleMessage (JObj [("type", JStr "alerts_list")])
                    (fresh "ws://bridge" "all" ∅ Default)) in
  let alert := JObj [("id", JStr "a1"); ("status", JStr "firing")] in
  addOrUpdateAlert alert c = Err TypeError c [] ∧
  alerts (final (handleMessage (snapshot [alert]) c)) = JArr [alert].
Proof.
  intros c alert. apply (alerts_not_an_array c alert [alert]). by intros ys.
Defined.

(** *** The transport channel *)

Lemma scheduled_no_reconnect t : Forall no_reconnect t → scheduled t = 0%nat.
Proof.
  unfold scheduled. induction 1 as [|a t [Ha _] _ IH]; [done|]. simpl. by rewrite Ha.
Qed.

Lemma toggleConnection_timers :
  keeps (agree_on timers) (λ a, is_setTimeout a = false) toggleConnection.
Proof. unfold toggleConnection, ws_close, connectWebSocket. keeps. Qed.

Lemma toggleConnection_handle c :
  let c' := final (toggleConnection c) in
  handle c' = handle c ∨
  (ws c' = Some (length (sockets c)) ∧ length (sockets c') = S (length (sockets c))).
Proof.
  unfold toggleConnection. rewrite final_bind. cbn [gets]. destruct (connected c).
  - left. unfold ws_close, mbind, M_bind, gets, modify, emit, handle. cbn.
    destruct (ws c) as [k|] eqn:Hws; cbn; [|by rewrite Hws].
    destruct (sockets c !! k) as [[]|]; cbn; by rewrite ?length_insert, Hws.
  - right. rewrite final_bind. cbn [modify]. rewrite connectWebSocket_run.
    cbn [final ws sockets set_ws set_sockets set_reconnectAttempts].
    by rewrite length_app, Nat.add_1_r.
Qed.

(** X11.  When a socket opens, the client marks itself connected and sends
    its two requests on the current socket [this.ws], which need not be the
    socket that opened: they go out if the current socket is the one that
    opened or is open already, and not at all otherwise. *)
Theorem open_requests_on_current_socket (c : client) (k cur : nat) :
  ws c = Some cur →
  (k < length (sockets c))%nat →
  let r := deliver (SocketOpen k) c in
  let requests := [WsSend cur (JObj [("type", JStr "get_alerts")]);
                   WsSend cur (JObj [("type", JStr "get_sounds")])] in
  thrown r = None ∧ connected (final r) = true ∧
  calls r =
    [ConsoleLog "WebSocket connected" []; UpdateConnectionUI] ++
    (if bool_decide (cur = k) then requests
     else match sockets c !! cur with Some OPEN => requests | _ => [] end).
Proof.
  intros Hws Hk r requests.
  unfold r, deliver, handler, browser, onopen, updateConnectionUI, sendMessage,
    mbind, M_bind, gets, modify, emit.
  cbn. rewrite Hws. case_bool_decide as Hcur.
  - subst cur. by repeat (progress (rewrite ?Hws, ?list_lookup_insert_eq by done; cbn)).
  - destruct (sockets c !! cur) as [[]|] eqn:Hsock;
      by repeat (progress (rewrite ?Hws, ?list_lookup_insert_ne, ?Hsock by done; cbn)).
Qed.

Lemma open_requests_on_current_socket_witness :
  let c := final (constructor (fresh "ws://bridge" "all" ∅ Default)) in
  let r := deliver (SocketOpen 0) c in
  let requests := [WsSend 0 (JObj [("type", JStr "get_alerts")]);
                   WsSend 0 (JObj [("type", JStr "get_sounds")])] in
  thrown r = None ∧ connected (final r) = true ∧
  calls r =
    [ConsoleLog "WebSocket connected" []; UpdateConnectionUI] ++
    (if bool_decide (0%nat = 0%nat) then requests
     else match sockets c !! 0%nat with Some OPEN => requests | _ => [] end).
Proof.
  intros c. apply (open_requests_on_current_socket c 0 0); [reflexivity|].
  vm_compute. lia.
Defined.

Lemma deliver_timers ev c :
  enabled c ev = true →
  (timers (final (deliver ev c)) + (if is_timer ev then 1 else 0) =
   timers c + scheduled (calls (deliver ev c)))%nat.
Proof.
  intros Hen. destruct ev as [k|k|k|k f| |]; unfold deliver; cbn [handler is_timer].
  - destruct (onopen_run (browser (SocketOpen k) c)) as (t & Ht & ->).
    cbn. rewrite (scheduled_no_reconnect t Ht). lia.
  - rewrite onclose_run. cbn.
    destruct (reconnectAttempts c <? maxReconnectAttempts)%Z; unfold scheduled; cbn; lia.
  - unfold scheduled. cbn. lia.
  - destruct (onmessage_channel f c) as [Hch Hcalls].
    cbn [browser]. rewrite (scheduled_no_reconnect _ Hcalls).
    unfold agree_on, channel in Hch. injection Hch as _ _ _ _ Htm. lia.
  - rewrite connectWebSocket_run. unfold scheduled. cbn.
    cbn in Hen. apply negb_true_iff, Nat.eqb_neq in Hen. lia.
  - destruct (toggleConnection_timers c) as [Htm Hcalls]. cbn [browser].
    unfold agree_on in Htm. rewrite <-Htm.
    assert (scheduled (calls (toggleConnection c)) = 0%nat) as ->; [|lia].
    unfold scheduled. induction Hcalls as [|a t Ha _ IH]; [done|]. simpl. by rewrite Ha.
Qed.

(** X12.  No pending timer is ever cancelled: in every run the browser can
    produce, with or without clicks, the timers still pending at the end
    plus those that expired are the timers pending at the start plus those
    scheduled on the way. *)
Theorem no_timer_is_cancelled (c : client) (evs : list event) :
  possible evs c = true →
  (timers (run evs c).1 + fired evs = timers c + scheduled (run evs c).2)%nat.
Proof.
  revert c. induction evs as [|ev rest IH]; intros c Hposs.
  { unfold fired, scheduled. cbn. lia. }
  cbn [possible] in Hposs. apply andb_true_iff in Hposs as [Hen Hposs].
  rewrite run_cons. cbn [fst snd]. rewrite scheduled_app.
  specialize (IH _ Hposs). pose proof (deliver_timers ev c Hen) as Hev.
  unfold fired in *. cbn [List.filter]. destruct (is_timer ev); cbn [length]; lia.
Qed.

Lemma no_timer_is_cancelled_witness :
  let c := final (constructor (fresh "ws://bridge" "all" ∅ Default)) in
  let evs := [SocketClose 0; ClickConnect; SocketOpen 1; ClickConnect;
              SocketClose 1; TimerFires; TimerFires]%nat in
  (timers (run evs c).1 + fired evs = timers c + scheduled (run evs c).2)%nat.
Proof.
  intros c evs. apply (no_timer_is_cancelled c evs). reflexivity.
Defined.

Lemma deliver_handle ev c :
  let c' := final (deliver ev c) in
  handle c' = handle c ∨
  (ws c' = Some (length (sockets c)) ∧ length (sockets c') = S (length (sockets c))).
Proof.
  destruct ev as [k|k|k|k f| |]; unfold deliver; cbn [handler].
  - left. destruct (onopen_run (browser (SocketOpen k) c)) as (t & Ht & ->).
    unfold handle. cbn. by rewrite length_insert.
  - left. rewrite onclose_run. unfold handle. cbn.
    destruct (reconnectAttempts c <? maxReconnectAttempts)%Z; cbn; by rewrite length_insert.
  - by left.
  - left. destruct (onmessage_channel f c) as [Hch _]. cbn [browser].
    unfold agree_on, channel in Hch. injection Hch as Hws _ _ Hs _.
    unfold handle. by rewrite <-Hws, <-Hs.
  - right. rewrite connectWebSocket_run.
    cbn [final ws sockets set_ws set_sockets set_timers browser].
    by rewrite length_app, Nat.add_1_r.
  - apply toggleConnection_handle.
Qed.

(** X13.  [this.ws] always is the socket created last: once that holds (it
    does for a new client) it holds after every run.  The client never
    returns to an older socket. *)
Theorem ws_is_the_latest_socket (c : client) (evs : list event) :
  ws_latest c → ws_latest (run evs c).1.
Proof.
  revert c. induction evs as [|ev rest IH]; intros c Hc; [done|].
  rewrite run_cons. cbn [fst]. apply IH. unfold ws_latest in *.
  destruct (deliver_handle ev c) as [Hsame|[Hws Hlen]].
  - unfold handle in Hsame. injection Hsame as -> ->. done.
  - rewrite Hws, Hlen. done.
Qed.

Lemma ws_is_the_latest_socket_witness :
  let c := final (constructor (fresh "ws://bridge" "all" ∅ Default)) in
  ws_latest (run [SocketClose 0; ClickConnect; TimerFires; SocketOpen 1]%nat c).1.
Proof.
  intros c. apply (ws_is_the_latest_socket c). reflexivity.
Defined.

(** *** Settings *)

(** X14.  [saveSettings] stores the slider under [notificationVolume]; the
    key [volume], from which [playSound] takes its gain, and the key
    [notification_volume], from which [openSettings] fills the slider, are
    the same before and after every save. *)
Theorem saveSettings_keeps_the_gain (c : client) (f : form) (r : response) :
  setting "volume" (final (saveSettings f r c)) = setting "volume" c ∧
  setting "notification_volume" (final (saveSettings f r c)) =
    setting "notification_volume" c.
Proof.
  destruct (accepted r) eqn:Hr.
  - unfold accepted in Hr. destruct r as [| |data]; try done.
    destruct (get data "success") as [success|] eqn:Hdata; [|done].
    rewrite (saveSettings_success f data success c Hdata Hr). cbn [final].
    rewrite !setting_set_server_url, !setting_overlay.
    change (newSettings f !! "volume") with (@None jsval).
    change (newSettings f !! "notification_volume") with (@None jsval).
    unfold setting. split; (apply fields_of_read; [compute; lia|done]).
  - by destruct (saveSettings_failure f r c Hr) as [-> _].
Qed.

Lemma listable_name s :
  listable s → ∃ name, get s "name" = Some name ∧ is_Some (ToString name).
Proof.
  unfold listable, sound_row. destruct (get s "name") as [name|]; cbn; [|done].
  destruct (ToString name) as [text|] eqn:Htext; cbn; [|done].
  intros _. exists name. split; [done|]. by exists text.
Qed.

Lemma option_markup_ok s k opt :
  is_Some (read s k) → is_Some (ToString opt) → option_markup s k opt = Some tt.
Proof. intros [v Hv] [text Ht]. unfold option_markup. by rewrite Ht, Hv. Qed.

Lemma updateSoundDropdowns_ok c xs :
  sounds c = JArr xs → Forall listable xs → settings_readable c = true →
  updateSoundDropdowns c = Ok tt c [].
Proof.
  intros Hc Hxs Hread. unfold updateSoundDropdowns, mbind, M_bind, gets. rewrite Hc.
  assert (∃ names, mapM (λ s, get s "name") xs = Some names ∧
                   Forall (λ name, is_Some (ToString name)) names) as (names & -> & Hnames).
  { clear Hc. induction Hxs as [|s xs Hs _ (names & IH & Hnames)]; [by exists []|].
    destruct (listable_name s Hs) as (name & Hname & Htext).
    exists (name :: names). cbn. rewrite Hname. cbn. rewrite IH. by split; [|constructor]. }
  cbn [try mret M_ret app].
  assert (∀ k, is_Some (mapM (option_markup (settings c) k)
                          (JStr "Без звука" :: JStr "Системный звук" :: names))) as Hoptions.
  { intros k. apply mapM_is_Some.
    assert (is_Some (read (settings c) k)) as Hk by by rewrite read_setting.
    repeat constructor; try (exists tt; by apply option_markup_ok).
    eapply Forall_impl; [exact Hnames|]. intros name Hname.
    exists tt. by apply option_markup_ok. }
  destruct (Hoptions "alertSound") as [? ->]. cbn [try mret M_ret app].
  by destruct (Hoptions "resolvedSound") as [? ->].
Qed.

Lemma updateSoundsUI_ok c xs :
  sounds c = JArr xs → Forall listable xs → settings_readable c = true →
  updateSoundsUI c = Ok tt c [UpdateSoundsUI].
Proof.
  intros Hc Hxs Hread. unfold updateSoundsUI. unfold mbind at 1 2, M_bind at 1 2, gets, emit.
  rewrite Hc.
  assert (is_Some (mapM sound_row xs)) as [rows ->].
  { apply mapM_is_Some. eapply Forall_impl; [exact Hxs|]. intros s Hs. by exists tt. }
  unfold mbind, M_bind. cbn [try mret M_ret app].
  by rewrite (updateSoundDropdowns_ok c xs).
Qed.

Lemma openSettings_run data c xs url_text volume_text :
  sounds c = JArr xs → Forall listable xs →
  let c' := set_settings (Fields (own_properties data ∪ fields_of (settings c))) c in
  input_value (setting "bridgeServerUrl" c') = Some url_text →
  input_value (setting "notification_volume" c') = Some volume_text →
  openSettings (Body data) c =
    Ok (Dialog url_text (truthy (setting "autoConnect" c'))
          (truthy (setting "showNotifications" c')) volume_text)
       c' [Fetch "GET" "/api/settings/" ∅].
Proof.
  intros Hc Hxs c' Hurl Hvol.
  pose proof (updateSoundDropdowns_ok c' xs Hc Hxs eq_refl) as Hdrop.
  unfold setting, c' in *. cbn -[own_properties] in Hurl, Hvol.
  unfold openSettings, await_json, this_settings, mbind, M_bind, emit, gets, modify.
  cbn -[own_properties spread updateSoundDropdowns]. unfold spread.
  rewrite Hurl. cbn -[own_properties updateSoundDropdowns].
  rewrite Hvol. cbn -[own_properties updateSoundDropdowns].
  by rewrite Hdrop.
Qed.

(** X15.  Opening the dialog after a successful save, with a catalog that
    can be listed, shows the saved address and the two saved check boxes,
    unless the server's settings name them; the slider is given
    [notification_volume] as it was before the save or as the server gives
    it, never the saved volume.  The texts are those the address and the
    volume convert to. *)
Theorem save_then_open (c : client) (f : form) (r : response) (data : jsval)
    (xs : list jsval) (url_text volume_text : string) :
  accepted r = true →
  sounds c = JArr xs →
  Forall listable xs →
  let served k otherwise :=
    match own_properties data !! k with Some v => v | None => otherwise end in
  input_value (served "bridgeServerUrl" (JStr (bridge_url_input f))) = Some url_text →
  input_value (served "notification_volume" (setting "notification_volume" c)) =
    Some volume_text →
  ∃ c',
    openSettings (Body data) (final (saveSettings f r c)) =
      Ok (Dialog url_text
                 (truthy (served "autoConnect" (JBool (auto_connect_checkbox f))))
                 (truthy (served "showNotifications" (JBool (show_notifications_checkbox f))))
                 volume_text)
         c' [Fetch "GET" "/api/settings/" ∅].
Proof.
  intros Hr Hc Hxs served Hurl Hvol.
  unfold accepted in Hr. destruct r as [| |answer]; try done.
  destruct (get answer "success") as [success|] eqn:Hanswer; [|done].
  rewrite (saveSettings_success f answer success c Hanswer Hr). cbn [final].
  set (c1 := set_server_url _ _).
  assert (∀ k otherwise, newSettings f !! k = otherwise →
            setting k (set_settings (Fields (own_properties data ∪ fields_of (settings c1))) c1) =
            served k (match otherwise with
                      | Some v => v
                      | None => default JUndefined (fields_of (settings c) !! k)
                      end)) as Hserved.
  { intros k otherwise Hk. unfold served, setting.
    cbn [settings set_settings set_server_url c1 read fields_of].
    rewrite !lookup_union, Hk.
    by destruct (own_properties data !! k), otherwise, (fields_of (settings c) !! k). }
  eexists. rewrite (openSettings_run data c1 xs url_text volume_text); [|done|done| |].
  - by rewrite (Hserved "autoConnect" _ eq_refl), (Hserved "showNotifications" _ eq_refl).
  - by rewrite (Hserved "bridgeServerUrl" _ eq_refl).
  - rewrite (Hserved "notification_volume" _ eq_refl).
    rewrite fields_of_read; [done|compute; lia|done].
Qed.

Lemma save_then_open_witness :
  let c := fresh "ws://bridge" "all" ∅ Default in
  let f := Form "ws://other" false false 30 "Системный звук" "Без звука" in
  let data := JObj [("autoConnect", JBool true)] in
  let served k otherwise :=
    match own_properties data !! k with Some v => v | None => otherwise end in
  ∃ c',
    openSettings (Body data)
      (final (saveSettings f (Body (JObj [("success", JBool true)])) c)) =
      Ok (Dialog "ws://other"
                 (truthy (served "autoConnect" (JBool (auto_connect_checkbox f))))
                 (truthy (served "showNotifications" (JBool (show_notifications_checkbox f))))
                 "undefined")
         c' [Fetch "GET" "/api/settings/" ∅].
Proof.
  intros c f data.
  apply (save_then_open c f (Body (JObj [("success", JBool true)])) data []
           "ws://other" "undefined");
    first [reflexivity | constructor].
Defined.




(** *** The sound catalog *)

Lemma filter_by_test (p : jsval → option bool) (q : jsval → bool) xs :
  Forall (λ s, p s = Some (q s)) xs → filter p xs = Some (List.filter q xs).
Proof.
  induction 1 as [|s xs Hs _ IH]; [done|]. simpl. rewrite Hs, IH. by destruct (q s).
Qed.

Lemma Forall_list_filter {A} (P : A → Prop) (q : A → bool) xs :
  Forall P xs → Forall P (List.filter q xs).
Proof.
  rewrite !Forall_forall. intros H s Hs. apply H.
  apply list_elem_of_In in Hs. apply List.filter_In in Hs as [Hs _].
  by apply list_elem_of_In.
Qed.

Lemma listable_readable s : listable s → nullish s = false.
Proof. intros Hs. by destruct s. Qed.

(** A confirmed delete that the server accepts: the catalog is filtered,
    then the list of sounds is drawn again. *)
Lemma deleteSound_accepted (c : client) (xs : list jsval) (soundId : string) (r : response) :
  sounds c = JArr xs →
  readable xs →
  accepted r = true →
  let kept := List.filter (λ s, negb (strict_eq (default JUndefined (get s "id"))
                                        (JStr soundId))) xs in
  let request := Fetch "POST" ("/api/sounds/" +:+ soundId +:+ "/delete/") ∅ in
  deleteSound soundId true r c =
    match updateSoundsUI (set_sounds (JArr kept) c) with
    | Ok _ c2 t => Ok tt c2 (request :: t ++ [ShowSnackbar "Звук удален" false])
    | Err e c2 t => Err e c2 (request :: t)
    end.
Proof.
  intros Hc Hxs Hr kept request.
  unfold accepted in Hr. destruct r as [| |data]; try done.
  destruct (get data "success") as [success|] eqn:Hdata; [|done].
  unfold deleteSound, await_json, showSnackbar, mbind, M_bind, emit, gets, modify.
  cbn -[updateSoundsUI]. rewrite Hdata. cbn -[updateSoundsUI]. rewrite Hr, Hc.
  match goal with |- context [filter ?p xs] =>
    rewrite (filter_by_test p
      (λ s, negb (strict_eq (default JUndefined (get s "id")) (JStr soundId))) xs)
  end.
  2:{ eapply Forall_impl; [exact Hxs|]. cbn. intros s Hs.
      by destruct (get_nullish s "id" Hs) as [id ->]. }
  cbn -[updateSoundsUI]. fold kept.
  by destruct (updateSoundsUI _) as [[] c2 t|e c2 t].
Qed.

(** X18.  After a confirmed delete that the server accepts, on a catalog
    that can be listed and settings that can be read, the catalog holds
    exactly the entries whose [id] is not the string taken from the button,
    in their order; the other fields are untouched, the list is drawn again
    and the notice is shown. *)
Theorem deleteSound_removes_by_string_id (c : client) (xs : list jsval)
    (soundId : string) (r : response) :
  sounds c = JArr xs →
  Forall listable xs →
  settings_readable c = true →
  accepted r = true →
  let kept := List.filter (λ s, negb (strict_eq (default JUndefined (get s "id"))
                                        (JStr soundId))) xs in
  deleteSound soundId true r c =
    Ok tt (set_sounds (JArr kept) c)
      [Fetch "POST" ("/api/sounds/" +:+ soundId +:+ "/delete/") ∅;
       UpdateSoundsUI; ShowSnackbar "Звук удален" false].
Proof.
  intros Hc Hxs Hread Hr kept.
  assert (readable xs) as Hreadable.
  { eapply Forall_impl; [exact Hxs|]. apply listable_readable. }
  rewrite (deleteSound_accepted c xs soundId r Hc Hreadable Hr). cbn zeta. fold kept.
  by rewrite (updateSoundsUI_ok (set_sounds (JArr kept) c) kept eq_refl
                (Forall_list_filter _ _ xs Hxs) Hread).
Qed.

Lemma deleteSound_removes_by_string_id_witness :
  let bell := JObj [("id", JStr "7"); ("name", JStr "bell")] in
  let chime := JObj [("id", JStr "8"); ("name", JStr "chime")] in
  let c := set_sounds (JArr [bell; chime]) (fresh "ws://bridge" "all" ∅ Default) in
  let kept := List.filter (λ s, negb (strict_eq (default JUndefined (get s "id"))
                                        (JStr "7"))) [bell; chime] in
  deleteSound "7" true (Body (JObj [("success", JBool true)])) c =
    Ok tt (set_sounds (JArr kept) c)
      [Fetch "POST" ("/api/sounds/" +:+ "7" +:+ "/delete/") ∅;
       UpdateSoundsUI; ShowSnackbar "Звук удален" false].
Proof.
  intros bell chime c.
  apply (deleteSound_removes_by_string_id c [bell; chime] "7");
    first [reflexivity | by repeat constructor].
Defined.

(** X19.  [deleteSound] compares the catalog ids with a string.  In a
    catalog whose ids are numbers no entry is ever removed, whatever id the
    button carries and whatever the server answers: the catalog stays as it
    is even after the server has deleted the sound. *)
Theorem deleteSound_keeps_numeric_ids (c : client) (xs : list jsval)
    (soundId : string) (confirmed : bool) (r : response) :
  sounds c = JArr xs →
  Forall (λ s, ∃ n, get s "id" = Some (JNum n)) xs →
  sounds (final (deleteSound soundId confirmed r c)) = JArr xs.
Proof.
  intros Hc Hnum.
  assert (readable xs) as Hxs.
  { eapply Forall_impl; [exact Hnum|]. intros s [n Hn]. by eapply get_Some_readable. }
  destruct confirmed; [|done].
  destruct (accepted r) eqn:Hr.
  - rewrite (deleteSound_accepted c xs soundId r Hc Hxs Hr). cbn zeta.
    match goal with |- context [updateSoundsUI ?c'] =>
      destruct (updateSoundsUI_keeps c') as [Hfinal _];
      destruct (updateSoundsUI c') as [[] c2 t|e c2 t]; cbn in Hfinal; subst c2
    end; cbn [final sounds set_sounds]; f_equal;
      clear Hc Hxs; (induction Hnum as [|s xs [n Hn] _ IH]; [done|]);
      cbn; rewrite Hn; cbn; by rewrite IH.
  - rewrite <-Hc. symmetry. unfold deleteSound, await_json, showSnackbar. cbn [negb].
    unfold accepted in Hr.
    rewrite final_bind. cbn [emit]. rewrite final_bind.
    destruct r as [| |data]; try done. cbn [mret M_ret]. rewrite final_bind.
    destruct (get data "success") as [success|]; [|done]. cbn [try mret M_ret].
    by rewrite Hr.
Qed.

Lemma deleteSound_keeps_numeric_ids_witness :
  let xs := [JObj [("id", JNum 7); ("name", JStr "bell")]] in
  let c := set_sounds (JArr xs) (fresh "ws://bridge" "all" ∅ Default) in
  sounds (final (deleteSound "7" true (Body (JObj [("success", JBool true)])) c)) = JArr xs.
Proof.
  intros xs c. apply (deleteSound_keeps_numeric_ids c xs "7"); [reflexivity|].
  repeat constructor. by exists 7.
Defined.

Lemma uploadSound_success name customName base64Data data success sound c xs :
  sounds c = JArr xs →
  get data "success" = Some success → truthy success = true →
  get data "sound" = Some sound →
  uploadSound name customName (Some base64Data) (Body data) c =
    let c' := set_sounds (JArr (xs ++ [sound])) c in
    let request := Fetch "POST" "/api/sounds/upload/"
                     (list_to_map [("file", JStr base64Data); ("name", JStr name);
                                   ("custom_name", JStr customName)]) in
    match updateSoundsUI c' with
    | Ok _ c2 t => Ok tt c2 (request :: t ++ [ShowSnackbar "Звук загружен" false])
    | Err e c2 t => Err e c2 (request :: t)
    end.
Proof.
  intros Hc Hsuccess Htruthy Hsound.
  unfold uploadSound, await_json, showSnackbar, mbind, M_bind, emit, gets, modify.
  cbn -[updateSoundsUI list_to_map]. rewrite Hsuccess. cbn -[updateSoundsUI list_to_map].
  rewrite Htruthy, Hsound. cbn -[updateSoundsUI list_to_map]. rewrite Hc.
  cbn -[updateSoundsUI list_to_map].
  by destruct (updateSoundsUI _) as [[] c2 t|e c2 t].
Qed.

(** X20.  A sound the server reports as uploaded is appended to the catalog
    as it is, and can be played at once.  When the catalog and the new sound
    can be listed, the catalog held no entry of that name, the url of the
    sound converts to a string and [settings.volume] is an integer within
    0..100, the handler returns normally and [playSound] with the new name
    plays the new url.  The name is a primitive value: [playSound] gets its
    argument from a button or from the settings, never from the catalog, so
    a name that is an array or an object is not [===] to it. *)
Theorem uploaded_sound_plays (c : client) (xs : list jsval)
    (name customName base64Data : string) (data success sound soundName url : jsval)
    (n : Z) :
  sounds c = JArr xs →
  Forall listable xs → listable sound →
  get data "success" = Some success → truthy success = true →
  get data "sound" = Some sound →
  get sound "name" = Some soundName → get sound "url" = Some url →
  truthy url = true → convertible url = true →
  setting "volume" c = JNum n → (0 ≤ n ≤ 100)%Z →
  strict_eq soundName soundName = true →
  bypasses_catalog soundName = false →
  unnamed soundName xs →
  let r := uploadSound name customName (Some base64Data) (Body data) c in
  thrown r = None ∧
  final r = set_sounds (JArr (xs ++ [sound])) c ∧
  playSound soundName (final r) =
    Ok tt (final r) [PlaySound soundName; AudioPlay url (JNum n)].
Proof.
  intros Hc Hxs Hs Hsuccess Htruthy Hsound Hname Hurl Hu Hconv Hvol Hn Hrefl Hby Hun r.
  assert (readable xs) as Hreadable.
  { eapply Forall_impl; [exact Hxs|]. apply listable_readable. }
  assert (Forall listable (xs ++ [sound])) as Hxs'.
  { apply Forall_app. split; [done|]. by repeat constructor. }
  assert (settings_readable c = true) as Hread.
  { unfold setting, settings_readable in *. destruct (settings c) as [o|v]; [done|].
    by destruct v. }
  unfold r. rewrite (uploadSound_success _ _ _ _ _ _ _ _ Hc Hsuccess Htruthy Hsound).
  cbn zeta.
  rewrite (updateSoundsUI_ok (set_sounds (JArr (xs ++ [sound])) c) (xs ++ [sound]) eq_refl Hxs' Hread).
  cbn [thrown final]. split; [done|]. split; [done|].
  rewrite (playSound_match (set_sounds (JArr (xs ++ [sound])) c)
             xs [] sound soundName soundName url) by done.
  unfold convertible in Hconv. destruct (ToString url) as [text|]; [|done].
  change (settings (set_sounds (JArr (xs ++ [sound])) c)) with (settings c).
  rewrite (setting_defined _ _ _ Hvol) by done.
  cbn [ToNumber ToPrimitive]. rewrite set_volume_integer.
  assert ((0 <=? n)%Z && (n <=? 100)%Z = true) as -> by lia. done.
Qed.

Lemma uploaded_sound_plays_witness :
  let c := fresh "ws://bridge" "all" ∅ Default in
  let sound := JObj [("id", JNum 3); ("name", JStr "gong"); ("url", JStr "/media/gong.wav")] in
  let data := JObj [("success", JBool true); ("sound", sound)] in
  let r := uploadSound "gong.wav" "gong" (Some "data:audio/wav;base64,UklGRg==") (Body data) c in
  thrown r = None ∧
  final r = set_sounds (JArr ([] ++ [sound])) c ∧
  playSound (JStr "gong") (final r) =
    Ok tt (final r) [PlaySound (JStr "gong"); AudioPlay (JStr "/media/gong.wav") (JNum 70)].
Proof.
  intros c sound data.
  apply (uploaded_sound_plays c [] "gong.wav" "gong" "data:audio/wav;base64,UklGRg=="
           data (JBool true) sound (JStr "gong") (JStr "/media/gong.wav") 70);
    first [reflexivity | lia | by repeat constructor].
Defined.

(** X21.  The answer of an upload is not validated: when it reports success
    without a [sound], [undefined] is appended to the catalog, the handler
    ends in a TypeError before the success notice, and from then on
    [playSound] throws for every name that is not found before that
    entry. *)
Theorem upload_without_sound (c : client) (xs : list jsval)
    (name customName base64Data : string) (data success soundName : jsval) :
  sounds c = JArr xs →
  readable xs →
  get data "success" = Some success → truthy success = true →
  get data "sound" = Some JUndefined →
  bypasses_catalog soundName = false →
  unnamed soundName xs →
  let r := uploadSound name customName (Some base64Data) (Body data) c in
  thrown r = Some TypeError ∧
  sounds (final r) = JArr (xs ++ [JUndefined]) ∧
  existsb is_snackbar (calls r) = false ∧
  thrown (playSound soundName (final r)) = Some TypeError.
Proof.
  intros Hc Hxs Hsuccess Htruthy Hsound Hby Hun r.
  assert (∀ c', sounds c' = JArr (xs ++ [JUndefined]) →
                updateSoundsUI c' = Err TypeError c' [UpdateSoundsUI]) as Hui.
  { intros c' Hc'. unfold updateSoundsUI. unfold mbind at 1 2, M_bind at 1 2, gets, emit.
    rewrite Hc'.
    assert (mapM sound_row (xs ++ [JUndefined]) = None) as ->; [|done].
    apply eq_None_not_Some. intros H%mapM_is_Some. apply Forall_app in H as [_ H].
    apply Forall_cons in H as [[? H] _]. done. }
  unfold r. rewrite (uploadSound_success _ _ _ _ _ _ _ _ Hc Hsuccess Htruthy Hsound).
  cbn zeta. rewrite (Hui (set_sounds (JArr (xs ++ [JUndefined])) c) eq_refl). cbn [thrown final calls sounds set_sounds].
  split; [done|]. split; [done|]. split; [done|].
  unfold bypasses_catalog in Hby. apply orb_false_elim in Hby as [Hby Hbeep].
  unfold playSound, mbind, M_bind, gets, emit. cbn. rewrite Hby, Hbeep. cbn.
  match goal with |- context [find ?p (xs ++ [JUndefined])] =>
    assert (find p (xs ++ [JUndefined]) = None) as ->; [|done];
    pose proof (name_test_false p soundName xs (λ _, eq_refl) Hxs Hun) as Hfalse
  end.
  unfold find.
  match goal with |- context [findIndex ?p _] =>
    assert (findIndex p (xs ++ [JUndefined]) = None) as ->; [|done] end.
  clear -Hfalse. induction Hfalse as [|s xs Hs _ IH]; [done|]. cbn. by rewrite Hs, IH.
Qed.

Lemma upload_without_sound_witness :
  let c := fresh "ws://bridge" "all" ∅ Default in
  let r := uploadSound "gong.wav" "gong" (Some "data:audio/wav;base64,UklGRg==")
             (Body (JObj [("success", JBool true)])) c in
  thrown r = Some TypeError ∧
  sounds (final r) = JArr ([] ++ [JUndefined]) ∧
  existsb is_snackbar (calls r) = false ∧
  thrown (playSound (JStr "gong") (final r)) = Some TypeError.
Proof.
  intros c.
  apply (upload_without_sound c [] "gong.wav" "gong" "data:audio/wav;base64,UklGRg=="
           (JObj [("success", JBool true)]) (JBool true) (JStr "gong"));
    first [reflexivity | constructor].
Defined.

(** X22.  [acknowledgeAlert] never throws and never changes the client,
    whatever the server answers; the notice is shown exactly when the
    answer reports success. *)
Theorem acknowledgeAlert_contained (alertId : string) (r : response) (c : client) :
  let run := acknowledgeAlert alertId r c in
  thrown run = None ∧ final run = c ∧
  existsb is_snackbar (calls run) = accepted r.
Proof.
  unfold acknowledgeAlert, catch, await_json, showSnackbar, mbind, M_bind, emit.
  destruct r as [| |data]; cbn; [done..|].
  destruct (get data "success") as [success|]; cbn; [|done].
  by destruct (truthy success).
Qed.

(** X23.  The other requests are not guarded: when the answer cannot be
    used, [saveSettings], [deleteSound] and [uploadSound] end in an
    exception after the request, leave the client as it was and show no
    notice, not even the one for a failure. *)
Theorem unusable_answer_is_silent (f : form) (soundId name customName base64Data : string)
    (r : response) (c : client) :
  unreadable r = true →
  Forall (λ run : res unit,
            thrown run ≠ None ∧ final run = c ∧ length (calls run) = 1%nat ∧
            existsb is_snackbar (calls run) = false)
    [ saveSettings f r c;
      deleteSound soundId true r c;
      uploadSound name customName (Some base64Data) r c ].
Proof.
  intros Hr.
  assert (∀ data, r = Body data → get data "success" = None) as Hget.
  { intros data ->. cbn in Hr. by destruct data. }
  unfold saveSettings, deleteSound, uploadSound, await_json, mbind, M_bind, emit.
  destruct r as [| |data]; cbn -[newSettings list_to_map];
    [by repeat constructor..|].
  rewrite (Hget data eq_refl). by repeat constructor.
Qed.

Lemma unusable_answer_is_silent_witness :
  let c := fresh "ws://bridge" "all" ∅ Default in
  Forall (λ run : res unit,
            thrown run ≠ None ∧ final run = c ∧ length (calls run) = 1%nat ∧
            existsb is_snackbar (calls run) = false)
    [ saveSettings (Form "ws://other" true true 50 "alert.wav" "resolved.wav") (Body JNull) c;
      deleteSound "7" true (Body JNull) c;
      uploadSound "gong.wav" "gong" (Some "data:audio/wav;base64,UklGRg==") (Body JNull) c ].
Proof.
  intros c.
  apply (unusable_answer_is_silent _ "7" "gong.wav" "gong" "data:audio/wav;base64,UklGRg=="
           (Body JNull) c).
  reflexivity.
Defined.

(** *** Cookies *)

Lemma append_cons x a b : String x a +:+ b = String x (a +:+ b).
Proof. done. Qed.

Lemma append_assoc a b c : (a +:+ b) +:+ c = a +:+ b +:+ c.
Proof. induction a as [|x a IH]; [done|]. by rewrite !append_cons, IH. Qed.

Lemma lacks_app p a b : lacks p (a +:+ b) = lacks p a && lacks p b.
Proof.
  induction a as [|x a IH]; [done|]. rewrite append_cons. cbn. rewrite IH.
  by destruct (p x).
Qed.

Lemma lacks_weaken (p q : ascii → bool) s :
  (∀ a, q a = true → p a = true) → lacks p s = true → lacks q s = true.
Proof.
  intros Hpq. induction s as [|x s IH]; cbn; [done|].
  intros [Hx Hs]%andb_prop. rewrite (IH Hs), andb_true_r.
  destruct (q x) eqn:Hq; [|done]. by rewrite (Hpq _ Hq) in Hx.
Qed.

Lemma split_lacks sep s : lacks (Ascii.eqb sep) s = true → split sep s = [s].
Proof.
  induction s as [|x s IH]; cbn; [done|].
  intros [Hx Hs]%andb_prop. rewrite (IH Hs).
  rewrite Ascii.eqb_sym. by destruct (Ascii.eqb sep x).
Qed.

Lemma split_app sep a b :
  lacks (Ascii.eqb sep) a = true → split sep (a +:+ String sep b) = a :: split sep b.
Proof.
  induction a as [|x a IH].
  - change ("" +:+ String sep b) with (String sep b). cbn. by rewrite Ascii.eqb_refl.
  - rewrite append_cons. cbn. intros [Hx Hs]%andb_prop. rewrite (IH Hs).
    rewrite Ascii.eqb_sym. by destruct (Ascii.eqb sep x).
Qed.

Lemma split_head sep s : ∃ first others, split sep s = first :: others.
Proof.
  induction s as [|x s (first & others & IH)]; cbn; [by eexists _, _|].
  rewrite IH. destruct (Ascii.eqb x sep); by eexists _, _.
Qed.

Lemma special_false a :
  special a = false →
  whitespace a = false ∧ (∀ b, whitespace2 a b = false) ∧ (∀ b c, whitespace3 a b c = false).
Proof.
  unfold special. intros [Hws Hascii%Nat.leb_gt]%orb_false_elim.
  split; [done|].
  assert (∀ n, (128 ≤ n)%nat → Nat.eqb (nat_of_ascii a) n = false) as Hne.
  { intros n Hn. apply Nat.eqb_neq. lia. }
  split; intros; unfold whitespace2, whitespace3; by rewrite !Hne by lia.
Qed.

Lemma trimStart_plain s : lacks special s = true → trimStart s = s.
Proof.
  destruct s as [|a r1]; [done|]. cbn [lacks].
  intros [Ha%negb_true_iff _]%andb_prop.
  destruct (special_false a Ha) as (H1 & H2 & H3). cbn [trimStart]. rewrite H1.
  destruct r1 as [|b r2]; [done|]. rewrite H2.
  destruct r2 as [|c r3]; [done|]. by rewrite H3.
Qed.

Lemma trimEnd_plain s : lacks special s = true → trimEnd s = s.
Proof.
  induction s as [|x s IH]; [done|]. intros Hs. cbn [trimEnd]. unfold blank.
  rewrite (trimStart_plain _ Hs). cbn [String.eqb].
  cbn [lacks] in Hs. apply andb_prop in Hs as [_ Hs]. by rewrite (IH Hs).
Qed.

Lemma trim_padded s : lacks special s = true → trim s = s ∧ trim (" " +:+ s) = s.
Proof.
  intros Hs. unfold trim. change (trimStart (" " +:+ s)) with (trimStart s).
  by rewrite (trimStart_plain _ Hs), (trimEnd_plain _ Hs).
Qed.

Lemma token_lacks s :
  token s = true → lacks special s = true ∧ lacks (Ascii.eqb ";") s = true.
Proof.
  intros Hs. split; (eapply lacks_weaken; [|exact Hs]); intros a Ha; cbv beta in *.
  - unfold special in Ha. apply orb_prop in Ha as [-> | ->]; [done|]. by rewrite orb_true_r.
  - rewrite Ascii.eqb_sym in Ha. by rewrite Ha, orb_true_r.
Qed.

(** a well-formed cookie: the name and the value are tokens, and the name
    holds no [=] *)
Lemma cookie_entry k v :
  token k = true → token v = true →
  lacks special (k +:+ "=" +:+ v) = true ∧
  lacks (Ascii.eqb ";") (k +:+ "=" +:+ v) = true.
Proof.
  intros [Hk1 Hk2]%token_lacks [Hv1 Hv2]%token_lacks.
  rewrite !lacks_app, Hk1, Hk2, Hv1, Hv2. by cbn.
Qed.

Lemma split_cookie_text jar :
  Forall (λ kv : string * string, token kv.1 = true ∧ token kv.2 = true) jar →
  ∃ l, split ";" (cookie_text jar) = l ∧
       (jar = [] ∨ Forall2 (λ kv s, trim s = kv.1 +:+ "=" +:+ kv.2) jar l).
Proof.
  induction 1 as [|[k v] rest [Hk Hv] Hrest (l & Hl & IH)]; [eexists; split; [done|by left]|].
  destruct (cookie_entry k v Hk Hv) as [Hws Hsemi].
  destruct rest as [|kv' rest'].
  - exists [k +:+ "=" +:+ v]. split.
    + cbn [cookie_text]. by apply split_lacks.
    + right. repeat constructor. by apply trim_padded.
  - destruct IH as [?|IH]; [done|].
    destruct (split_head ";" (cookie_text (kv' :: rest'))) as (first & others & Hsplit).
    rewrite Hsplit in Hl. subst l. apply Forall2_cons_1 in IH as [Hfirst Hothers].
    exists ((k +:+ "=" +:+ v) :: (" " +:+ first) :: others). split.
    + change (cookie_text ((k, v) :: kv' :: rest'))
        with (k +:+ "=" +:+ v +:+ "; " +:+ cookie_text (kv' :: rest')).
      replace (k +:+ "=" +:+ v +:+ "; " +:+ cookie_text (kv' :: rest'))
        with ((k +:+ "=" +:+ v) +:+ String ";" (" " +:+ cookie_text (kv' :: rest'))).
      2:{ by rewrite !append_assoc. }
      rewrite (split_app _ _ _ Hsemi). f_equal.
      change (" " +:+ cookie_text (kv' :: rest')) with (String " " (cookie_text (kv' :: rest'))).
      cbn [split]. by rewrite Hsplit.
    + right. constructor; [by apply trim_padded|]. constructor; [|done].
      rewrite <- Hfirst. unfold trim. by change (" " +:+ first) with (String " " first).
Qed.

Lemma scanCookies_trimmed jar l :
  Forall (λ kv : string * string, lacks (Ascii.eqb "=") kv.1 = true) jar →
  Forall2 (λ kv s, trim s = kv.1 +:+ "=" +:+ kv.2) jar l →
  scanCookies l =
    match first_cookie "csrftoken" jar with
    | Some v => JStr (default "" (head (split "=" v)))
    | None => JStr ""
    end.
Proof.
  intros Hjar Hl. induction Hl as [|[k v] s jar l Hs _ IH]; [done|].
  apply Forall_cons in Hjar as [Hk Hjar]. cbn [scanCookies first_cookie].
  cbn [fst snd] in Hs, Hk. rewrite Hs.
  change (k +:+ "=" +:+ v) with (k +:+ String "=" v). rewrite (split_app "=" k v Hk).
  destruct (String.eqb k "csrftoken"); [|by apply IH].
  by destruct (split_head "=" v) as (first & others & ->).
Qed.

(** X24.  [getCSRFToken] on the text of a cookie jar gives the value of the
    first cookie named [csrftoken], cut at its first [=], and the empty
    string when there is none.  The names and values are tokens, and no
    name holds a [=]. *)
Theorem getCSRFToken_reads_the_jar (jar : list (string * string)) :
  Forall (λ kv : string * string,
            token kv.1 = true ∧ lacks (Ascii.eqb "=") kv.1 = true ∧ token kv.2 = true) jar →
  getCSRFToken (cookie_text jar) =
    match first_cookie "csrftoken" jar with
    | Some v => JStr (default "" (head (split "=" v)))
    | None => JStr ""
    end.
Proof.
  intros Hjar. unfold getCSRFToken.
  destruct (split_cookie_text jar) as (l & <- & Hl).
  { eapply Forall_impl; [exact Hjar|]. by intros kv (? & _ & ?). }
  destruct Hl as [->|Hl]; [done|].
  apply scanCookies_trimmed; [|done].
  eapply Forall_impl; [exact Hjar|]. by intros kv (_ & ? & _).
Qed.

Lemma getCSRFToken_reads_the_jar_witness :
  getCSRFToken (cookie_text [("sessionid", "abc"); ("csrftoken", "tok=en"); ("csrftoken", "other")]) =
    JStr "tok".
Proof.
  apply (getCSRFToken_reads_the_jar
           [("sessionid", "abc"); ("csrftoken", "tok=en"); ("csrftoken", "other")]).
  repeat constructor.
Defined.

(** X25.  A cookie named [csrftoken] that carries no [=] makes
    [getCSRFToken] return [undefined], not the empty string, whatever
    follows it. *)
Theorem getCSRFToken_bare_name (rest : string) :
  getCSRFToken ("csrftoken" +:+ ";" +:+ rest) = JUndefined ∧
  getCSRFToken "csrftoken" = JUndefined.
Proof.
  split; [|done]. unfold getCSRFToken.
  change ("csrftoken" +:+ ";" +:+ rest) with ("csrftoken" +:+ String ";" rest).
  by rewrite split_app.
Qed.

Lemma split_stem sep s :
  ∃ first others, split sep s = first :: others ∧
    lacks (Ascii.eqb sep) first = true ∧
    (s = first ∨ ∃ rest, s = first +:+ String sep rest).
Proof.
  induction s as [|x s (first & others & IH & Hfirst & Hs)]; cbn [split].
  { eexists _, _. split; [done|]. split; [done|by left]. }
  rewrite IH. destruct (Ascii.eqb x sep) eqn:Hx.
  - apply Ascii.eqb_eq in Hx as ->. exists "", (first :: others).
    split; [done|]. split; [done|]. right. by exists s.
  - exists (String x first), others. split; [done|]. split.
    + cbn. by rewrite Ascii.eqb_sym, Hx.
    + destruct Hs as [->|[rest ->]]; [by left|]. right. by exists rest.
Qed.

(** X26.  When the user leaves the prompt empty, [fileSelected] uploads the
    file under the part of its name before the first dot: a name without a
    dot as it is, a name that starts with a dot under the empty name. *)
Theorem fileSelected_empty_answer (name : string) (read : option string) (r : response) :
  ∃ stem, fileSelected (Some name) (Some "") read r = uploadSound name stem read r ∧
          lacks (Ascii.eqb ".") stem = true ∧
          (name = stem ∨ ∃ rest, name = stem +:+ "." +:+ rest).
Proof.
  destruct (split_stem "." name) as (first & others & Hsplit & Hfirst & Hname).
  exists first. unfold fileSelected. rewrite Hsplit. done.
Qed.
